(** * A shallow embedding of [swift/codegen/generators/qlgen.py]

    The generator maps schema classes to QL classes, resolves imports,
    guards hand-edited stub files and walks the inheritance graph to
    decide which classes get test scaffolding.  Every definition below
    follows one function of [qlgen.py]; collaborators that live in other
    modules ([inflection], [pathlib], [swift.codegen.lib.ql], the
    renderer) are interfaces whose operations are taken as parameters. *)

From Stdlib Require Import String Ascii List Bool Arith Lia.
From stdpp Require Import gmap strings list fin_maps sorting.

Local Open Scope string_scope.
Local Open Scope list_scope.

(** ** Python values *)

(** Exceptions the modelled code can raise.  [OutOfFuel] stands for a
    recursion that does not come back (a cyclic base-class graph). *)
Inductive exn :=
  | KeyError (key : string)
  | IndexError
  | ValueError
  | FileNotFoundError (file : string)
  | ModifiedStubMarkedAsGeneratedError (file : string)
  | OutOfFuel.

Inductive result (A : Type) :=
  | Val (a : A)
  | Raise (e : exn).
Arguments Val {A} a.
Arguments Raise {A} e.

Definition bind {A B} (r : result A) (k : A → result B) : result B :=
  match r with
  | Val a => k a
  | Raise e => Raise e
  end.

Notation "'let*' x ':=' r 'in' k" := (bind r (fun x => k))
  (at level 10, x name, r at level 100, k at level 200).

(** A list comprehension whose element expression may raise. *)
Fixpoint mapM {A B} (f : A → result B) (l : list A) : result (list B) :=
  match l with
  | [] => Val []
  | a :: l' => let* b := f a in let* bs := mapM f l' in Val (b :: bs)
  end.

(** A Python object: a value together with its identity [id(o)].  Two
    references are the same object ([is]) when their identities agree. *)
Record object (A : Type) := Obj { oid : nat; deref : A }.
Arguments Obj {A} oid deref.
Arguments oid {A} o.
Arguments deref {A} o.

Definition is_ {A} (p q : object A) : bool := Nat.eqb (oid p) (oid q).

(** ** The schema model ([swift.codegen.lib.schema]) *)

Module schema.
Module Property.
Record t := {
  name : string;
  type : string;
  is_child : bool;
  pragmas : list string;
  is_single : bool;
  is_optional : bool;
  is_repeated : bool;
  is_predicate : bool;
}.
End Property.
Abbreviation Property := Property.t.

Module Class.
Record t := {
  name : string;
  bases : list string;
  derived : list string;
  properties : list (object Property);
  dir : string;
  pragmas : list string;
}.
End Class.
Abbreviation Class := Class.t.
End schema.

(** ** The QL model ([swift.codegen.lib.ql]) *)

Module ql.
(** The fields of a property are the constructor arguments that
    [get_ql_property] passes, [plural] being [None] where it is not
    passed; those of a class are the attributes the generator reads. *)
Module Property.
Record t := {
  singular : string;
  type : string;
  tablename : string;
  tableparams : list string;
  plural : option string;
  is_optional : bool;
  is_predicate : bool;
  is_child : bool;
  qltest_skip : bool;
}.
End Property.
Abbreviation Property := Property.t.

Module Class.
Record t := {
  name : string;
  bases : list string;
  final : bool;
  properties : list (object Property);
  dir : string;
  imports : list string;
  qltest_skip : bool;
  qltest_collapse_hierarchy : bool;
  qltest_uncollapse_hierarchy : bool;
}.
End Class.
Abbreviation Class := Class.t.

Module PropertyForTest.
Record t := {
  getter : string;
  type : string;
  is_single : bool;
  is_predicate : bool;
  is_repeated : bool;
}.
End PropertyForTest.
Abbreviation PropertyForTest := PropertyForTest.t.

Module Stub.
Record t := { name : string; base_import : string }.
End Stub.
Abbreviation Stub := Stub.t.
End ql.

(** ** The [inflection] package, as an interface *)

Record Inflection := {
  camelize : string → string;
  (** [camelize(s, uppercase_first_letter=False)] *)
  camelize_lower : string → string;
  singularize : string → string;
  pluralize : string → string;
  tableize : string → string;
  underscore : string → string;
}.

(** ** Relational mapper *)

Definition single (p : object schema.Property) : Prop :=
  schema.Property.is_single (deref p) = true.

#[global] Instance single_dec p : Decision (single p) :=
  decide (schema.Property.is_single (deref p) = true).

Section Mapper.
Variable infl : Inflection.

(** The comprehension of line 44:
    ["result" if p is prop else "_" for p in cls.properties if p.is_single] *)
Definition single_slots (cls : schema.Class) (prop : object schema.Property)
  : list string :=
  map (fun p => if is_ p prop then "result" else "_")
      (filter single (schema.Class.properties cls)).

Definition get_ql_property (cls : schema.Class) (prop : object schema.Property)
  : option ql.Property :=
  let p := deref prop in
  let type :=
    if negb (schema.Property.is_predicate p) then schema.Property.type p
    else "predicate" in
  let qltest_skip :=
    bool_decide ("qltest_skip" ∈ schema.Property.pragmas p) in
  let mk singular plural tablename tableparams :=
    {| ql.Property.singular := singular;
       ql.Property.type := type;
       ql.Property.tablename := tablename;
       ql.Property.tableparams := tableparams;
       ql.Property.plural := plural;
       ql.Property.is_optional := schema.Property.is_optional p;
       ql.Property.is_predicate := schema.Property.is_predicate p;
       ql.Property.is_child := schema.Property.is_child p;
       ql.Property.qltest_skip := qltest_skip |} in
  if schema.Property.is_single p then
    Some (mk (camelize infl (schema.Property.name p)) None
             (tableize infl (schema.Class.name cls))
             ("this" :: single_slots cls prop))
  else if schema.Property.is_repeated p then
    Some (mk (singularize infl (camelize infl (schema.Property.name p)))
             (Some (pluralize infl (camelize infl (schema.Property.name p))))
             (tableize infl
                (schema.Class.name cls +:+ "_" +:+ schema.Property.name p))
             ["this"; "index"; "result"])
  else if schema.Property.is_optional p then
    Some (mk (camelize infl (schema.Property.name p)) None
             (tableize infl
                (schema.Class.name cls +:+ "_" +:+ schema.Property.name p))
             ["this"; "result"])
  else if schema.Property.is_predicate p then
    Some (mk (camelize_lower infl (schema.Property.name p)) None
             (underscore infl
                (schema.Class.name cls +:+ "_" +:+ schema.Property.name p))
             ["this"])
  else None.
End Mapper.

(** Two loads of one schema: the same classes and properties, as
    objects that need not be the same. *)
Definition same_content (c1 c2 : schema.Class) : Prop :=
  schema.Class.name c1 = schema.Class.name c2
  ∧ map deref (schema.Class.properties c1)
    = map deref (schema.Class.properties c2).

(** Injectivity of the table names, in the words of the design: two
    distinct properties of the schema never map to the same table. *)
Definition tablenames_injective (infl : Inflection)
    (classes : list schema.Class) : Prop :=
  ∀ c1 c2 p1 p2 q1 q2,
    c1 ∈ classes → c2 ∈ classes →
    p1 ∈ schema.Class.properties c1 → p2 ∈ schema.Class.properties c2 →
    oid p1 ≠ oid p2 →
    get_ql_property infl c1 p1 = Some q1 →
    get_ql_property infl c2 p2 = Some q2 →
    ql.Property.tablename q1 ≠ ql.Property.tablename q2.

(** ** Text

    A Python [str] is modelled by a [string] whose characters are the
    code points below 256; the character classes below are Unicode's,
    restricted to that range. *)

Definition nl : ascii := "010"%char.

Definition in_range (lo hi : nat) (c : ascii) : bool :=
  Nat.leb lo (nat_of_ascii c) && Nat.leb (nat_of_ascii c) hi.

(** [str.isupper] on one character. *)
Definition isupper (c : ascii) : bool :=
  in_range 65 90 c || in_range 192 214 c || in_range 216 222 c.

(** The class [\w] of [re] on [str] patterns. *)
Definition isword (c : ascii) : bool :=
  in_range 48 57 c || in_range 65 90 c || Ascii.eqb c "_" || in_range 97 122 c
  || Ascii.eqb c "170" || in_range 178 179 c || Ascii.eqb c "181"
  || in_range 185 186 c || in_range 188 190 c || in_range 192 214 c
  || in_range 216 246 c || in_range 248 255 c.

(** [s.replace(a, b)] for one-character [a] and [b]. *)
Fixpoint replace_char (a b : ascii) (s : string) : string :=
  match s with
  | "" => ""
  | String c s' => String (if Ascii.eqb c a then b else c) (replace_char a b s')
  end.

(** Iterating over an open text file: the lines, each with its
    terminating newline (the last one possibly without). *)
Fixpoint readlines (s : string) : list string :=
  match s with
  | "" => []
  | String c s' =>
      if Ascii.eqb c nl then String nl "" :: readlines s'
      else match readlines s' with
           | [] => [String c ""]
           | l :: ls => String c l :: ls
           end
  end.

(** ["".join(ls)] *)
Definition join (ls : list string) : string := fold_right String.append "" ls.

(** Lexicographic order on code points, the order [sorted] uses. *)
Definition str_le (s t : string) : Prop := String.leb s t = true.

#[global] Instance str_le_dec : RelDecision str_le :=
  fun s t => decide (String.leb s t = true).

(** ** Regular expressions ([re]) *)

Inductive regex :=
  | Empty
  | Eps
  | Chr (f : ascii → bool)
  | Seq (r1 r2 : regex)
  | Alt (r1 r2 : regex)
  | Star (r : regex).

Fixpoint lit (s : string) : regex :=
  match s with
  | "" => Eps
  | String c s' => Seq (Chr (Ascii.eqb c)) (lit s')
  end.

Definition Plus (r : regex) : regex := Seq r (Star r).

(** [.] without [re.DOTALL]: anything but a newline. *)
Definition dot : regex := Chr (fun c => negb (Ascii.eqb c nl)).

Fixpoint nullable (r : regex) : bool :=
  match r with
  | Empty => false
  | Eps => true
  | Chr _ => false
  | Seq r1 r2 => nullable r1 && nullable r2
  | Alt r1 r2 => nullable r1 || nullable r2
  | Star _ => true
  end.

Fixpoint deriv (c : ascii) (r : regex) : regex :=
  match r with
  | Empty => Empty
  | Eps => Empty
  | Chr f => if f c then Eps else Empty
  | Seq r1 r2 =>
      if nullable r1 then Alt (Seq (deriv c r1) r2) (deriv c r2)
      else Seq (deriv c r1) r2
  | Alt r1 r2 => Alt (deriv c r1) (deriv c r2)
  | Star r1 => Seq (deriv c r1) (Star r1)
  end.

(** [pattern.match(s) is not None]: some prefix of [s] is in the language. *)
Fixpoint re_match (r : regex) (s : string) : bool :=
  nullable r ||
  match s with
  | "" => false
  | String c s' => re_match (deriv c r) s'
  end.

(** The words of a regular expression, declaratively. *)
Inductive Matches : regex → string → Prop :=
  | MEps : Matches Eps ""
  | MChr f c : f c = true → Matches (Chr f) (String c "")
  | MSeq r1 r2 s1 s2 :
      Matches r1 s1 → Matches r2 s2 → Matches (Seq r1 r2) (s1 +:+ s2)
  | MAltL r1 r2 s : Matches r1 s → Matches (Alt r1 r2) s
  | MAltR r1 r2 s : Matches r2 s → Matches (Alt r1 r2) s
  | MStar0 r : Matches (Star r) ""
  | MStarS r s1 s2 :
      Matches r s1 → Matches (Star r) s2 → Matches (Star r) (s1 +:+ s2).

(** [all(f(c) for c in s)] *)
Fixpoint all_chars (f : ascii → bool) (s : string) : bool :=
  match s with
  | "" => true
  | String c s' => f c && all_chars f s'
  end.

Definition NL : string := String nl "".

(** The pattern in words: a text that starts with an import statement,
    a blank line, and an empty class declaration extending one base. *)
Definition stub_shaped (s : string) : Prop :=
  ∃ imp cls base sep tail,
    s = "private import " +:+ imp +:+ NL +:+ NL +:+ "class " +:+ cls
        +:+ " extends " +:+ base +:+ " {" +:+ sep +:+ "}" +:+ tail
    ∧ all_chars (fun c => negb (Ascii.eqb c nl)) imp = true
    ∧ cls ≠ "" ∧ all_chars isword cls = true
    ∧ base ≠ "" ∧ all_chars isword base = true
    ∧ (sep = " " ∨ sep = NL).

(** ** Import resolver *)

Definition get_types_used_by (cls : ql.Class) : list string :=
  ql.Class.bases cls
  ++ map (fun p => ql.Property.type (deref p)) (ql.Class.properties cls).

(** [t[0].isupper()]; indexing the empty string raises. *)
Definition is_class_reference (t : string) : result bool :=
  match t with
  | "" => Raise IndexError
  | String c _ => Val (isupper c)
  end.

(** [t[:1].isupper()], which never raises. *)
Definition starts_upper (t : string) : bool :=
  match t with
  | "" => false
  | String c _ => isupper c
  end.

(** A comprehension with a condition that may raise. *)
Fixpoint filterM {A} (f : A → result bool) (l : list A) : result (list A) :=
  match l with
  | [] => Val []
  | x :: l' =>
      let* b := f x in
      let* xs := filterM f l' in
      Val (if b then x :: xs else xs)
  end.

(** [sorted(set(ts))] *)
Definition sorted_set (ts : list string) : list string :=
  merge_sort str_le (elements (list_to_set ts : gset string)).

Definition get_classes_used_by (cls : ql.Class) : result (list string) :=
  let* ts := filterM is_class_reference (get_types_used_by cls) in
  Val (sorted_set ts).

(** ** Stub guard *)

(** [re.compile(r"private import .*\n\nclass \w+ extends \w+ \{[ \n]\}")] *)
Definition _generated_stub_re : regex :=
  Seq (lit "private import ")
  (Seq (Star dot)
  (Seq (lit (String nl (String nl "class ")))
  (Seq (Plus (Chr isword))
  (Seq (lit " extends ")
  (Seq (Plus (Chr isword))
  (Seq (lit " {")
  (Seq (Chr (fun c => Ascii.eqb c " " || Ascii.eqb c nl))
       (lit "}")))))))).

Definition line_threshold : nat := 5.

(** The body of [_is_generated_stub], on the lines of the opened file. *)
Definition stub_check (file : string) (contents : list string) : result bool :=
  match contents with
  | [] => Val false
  | line :: rest =>
      if negb (String.prefix "// generated" line) then Val false
      else
        let first_lines := take line_threshold rest in
        if Nat.eqb (length first_lines) line_threshold
           || negb (re_match _generated_stub_re (join first_lines))
        then Raise (ModifiedStubMarkedAsGeneratedError file)
        else Val true
  end.

(** [fs] holds the text of the files by path, as [open] decodes it;
    [open] raises when there is no such file. *)
Definition _is_generated_stub (fs : gmap string string) (file : string)
  : result bool :=
  match fs !! file with
  | None => Raise (FileNotFoundError file)
  | Some text => stub_check file (readlines text)
  end.

(** *** Sample stub files *)

Definition marker_line : string :=
  "// generated by codegen, remove this comment if you wish to edit this file
".

Definition stub_body : string :=
  "private import codeql.swift.generated.Leaf

class Leaf extends LeafBase { }
".

(** What the generator writes for [Leaf]. *)
Definition pristine_stub : string := marker_line +:+ stub_body.

(** The same with the marker line written twice. *)
Definition two_marker_stub : string :=
  marker_line +:+ marker_line +:+ stub_body.

(** The same with two blank lines appended: five lines after the marker. *)
Definition five_line_stub : string :=
  marker_line +:+ stub_body +:+ NL +:+ NL.

(** ** Hierarchy analyzer *)

(** [lookup[b]] *)
Definition getitem {V} (d : gmap string V) (k : string) : result V :=
  match d !! k with
  | Some v => Val v
  | None => Raise (KeyError k)
  end.

(** [any(f(x) for x in l)]: stops at the first true answer. *)
Fixpoint anyM {A} (f : A → result bool) (l : list A) : result bool :=
  match l with
  | [] => Val false
  | x :: l' => let* b := f x in if b then Val true else anyM f l'
  end.

(** [cls.qltest_collapse_hierarchy or under(cls)] *)
Definition in_collapsed_with (under : ql.Class → result bool) (cls : ql.Class)
  : result bool :=
  if ql.Class.qltest_collapse_hierarchy cls then Val true else under cls.

(** The two functions call each other; [fuel] bounds the depth of the
    recursion through the bases, and the call of
    [_is_in_qltest_collapsed_hierachy] on a base is [in_collapsed_with]
    on the recursive call. *)
Fixpoint _is_under_qltest_collapsed_hierachy
    (fuel : nat) (cls : ql.Class) (lookup : gmap string ql.Class)
  : result bool :=
  match fuel with
  | 0 => Raise OutOfFuel
  | S fuel' =>
      if ql.Class.qltest_uncollapse_hierarchy cls then Val false
      else
        anyM (fun b =>
                let* base := getitem lookup b in
                in_collapsed_with
                  (fun c => _is_under_qltest_collapsed_hierachy fuel' c lookup)
                  base)
             (ql.Class.bases cls)
  end.

Definition _is_in_qltest_collapsed_hierachy
    (fuel : nat) (cls : ql.Class) (lookup : gmap string ql.Class)
  : result bool :=
  in_collapsed_with
    (fun c => _is_under_qltest_collapsed_hierachy fuel c lookup) cls.

Definition _should_skip_qltest
    (fuel : nat) (cls : ql.Class) (lookup : gmap string ql.Class)
  : result bool :=
  if ql.Class.qltest_skip cls then Val true
  else if negb (ql.Class.final cls || ql.Class.qltest_collapse_hierarchy cls)
  then Val true
  else _is_under_qltest_collapsed_hierachy fuel cls lookup.

(** The generator, as the list of the pairs it yields: the bases' pairs
    first, in the order of [cls.bases], then the class's own. *)
Fixpoint _get_all_properties
    (fuel : nat) (cls : ql.Class) (lookup : gmap string ql.Class)
  : result (list (ql.Class * object ql.Property)) :=
  match fuel with
  | 0 => Raise OutOfFuel
  | S fuel' =>
      let* inherited := mapM (fun b =>
                          let* base := getitem lookup b in
                          _get_all_properties fuel' base lookup)
                       (ql.Class.bases cls) in
      Val (concat inherited
           ++ map (fun p => (cls, p)) (ql.Class.properties cls))%list
  end.

(** The loop of [_get_all_properties_to_be_tested]: the properties for
    which a [PropertyForTest] is yielded, [already_seen] holding the
    identities met so far. *)
Fixpoint properties_to_be_tested
    (already_seen : gset nat) (items : list (ql.Class * object ql.Property))
  : list (object ql.Property) :=
  match items with
  | [] => []
  | (c, p) :: rest =>
      if negb (ql.Class.qltest_skip c || ql.Property.qltest_skip (deref p)
               || bool_decide (oid p ∈ already_seen))
      then p :: properties_to_be_tested ({[oid p]} ∪ already_seen) rest
      else properties_to_be_tested already_seen rest
  end.

(** *** The inheritance graph, declaratively *)

(** Every base named by a class of the table is in the table, at a
    smaller depth: the graph is closed and has no cycle. *)
Definition closed_acyclic (lookup : gmap string ql.Class)
    (depth : string → nat) : Prop :=
  ∀ n c b, lookup !! n = Some c → b ∈ ql.Class.bases c →
    ∃ cb, lookup !! b = Some cb ∧ depth b < depth n.

(** [Derives lookup d a]: [d] derives from [a], directly or transitively. *)
Inductive Derives (lookup : gmap string ql.Class)
  : ql.Class → ql.Class → Prop :=
  | derives_direct d b cb :
      b ∈ ql.Class.bases d → lookup !! b = Some cb → Derives lookup d cb
  | derives_trans d b cb a :
      b ∈ ql.Class.bases d → lookup !! b = Some cb → Derives lookup cb a →
      Derives lookup d a.

(** The same, along a chain on which neither [d] nor any class strictly
    between [d] and [a] carries the uncollapse override. *)
Inductive DerivesUnbroken (lookup : gmap string ql.Class)
  : ql.Class → ql.Class → Prop :=
  | unbroken_direct d b cb :
      ql.Class.qltest_uncollapse_hierarchy d = false →
      b ∈ ql.Class.bases d → lookup !! b = Some cb →
      DerivesUnbroken lookup d cb
  | unbroken_trans d b cb a :
      ql.Class.qltest_uncollapse_hierarchy d = false →
      b ∈ ql.Class.bases d → lookup !! b = Some cb →
      DerivesUnbroken lookup cb a → DerivesUnbroken lookup d a.

(** is-under-collapsed-hierarchy, in the words of the design: no
    uncollapse override, and some base that carries the collapse pragma
    or is itself under a collapsed hierarchy. *)
Inductive UnderCollapsed (lookup : gmap string ql.Class) : ql.Class → Prop :=
  | under_pragma c b cb :
      ql.Class.qltest_uncollapse_hierarchy c = false →
      b ∈ ql.Class.bases c → lookup !! b = Some cb →
      ql.Class.qltest_collapse_hierarchy cb = true → UnderCollapsed lookup c
  | under_under c b cb :
      ql.Class.qltest_uncollapse_hierarchy c = false →
      b ∈ ql.Class.bases c → lookup !! b = Some cb →
      UnderCollapsed lookup cb → UnderCollapsed lookup c.

(** is-collapsed *)
Definition Collapsed (lookup : gmap string ql.Class) (c : ql.Class) : Prop :=
  ql.Class.qltest_collapse_hierarchy c = true ∨ UnderCollapsed lookup c.

(** The derived attributes of [ql.Property] and [ql.Class]. *)
Record QlLib := {
  getter : ql.Property → string;
  is_single : ql.Property → bool;
  is_repeated : ql.Property → bool;
  path : ql.Class → string;
}.

Section Flatten.
Variable qllib : QlLib.

Definition property_for_test (p : ql.Property) : ql.PropertyForTest :=
  {| ql.PropertyForTest.getter := getter qllib p;
     ql.PropertyForTest.type := ql.Property.type p;
     ql.PropertyForTest.is_single := is_single qllib p;
     ql.PropertyForTest.is_predicate := ql.Property.is_predicate p;
     ql.PropertyForTest.is_repeated := is_repeated qllib p |}.

Definition _get_all_properties_to_be_tested
    (fuel : nat) (cls : ql.Class) (lookup : gmap string ql.Class)
  : result (list ql.PropertyForTest) :=
  let* items := _get_all_properties fuel cls lookup in
  Val (map (fun p => property_for_test (deref p))
           (properties_to_be_tested ∅ items)).
End Flatten.

(** ** Generation driver *)

(** The operations of [pathlib] the driver uses; a path is its text. *)
Record Pathlib := {
  (** [a / b] *)
  joinpath : string → string → string;
  with_suffix : string → string → result string;
  relative_to : string → string → result string;
  (** [dir.rglob(pattern)] over the files of the file system *)
  rglob : gmap string string → string → string → list string;
}.

Record Opts := {
  ql_output : string;
  ql_stub_output : string;
  ql_test_output : string;
  swift_dir : string;
}.

(** What the driver hands to the renderer. *)
Inductive renderable :=
  | RClass (c : ql.Class)
  | RStub (s : ql.Stub).

(** [c.imports = imps] *)
Definition set_imports (c : ql.Class) (imps : list string) : ql.Class :=
  {| ql.Class.name := ql.Class.name c;
     ql.Class.bases := ql.Class.bases c;
     ql.Class.final := ql.Class.final c;
     ql.Class.properties := ql.Class.properties c;
     ql.Class.dir := ql.Class.dir c;
     ql.Class.imports := imps;
     ql.Class.qltest_skip := ql.Class.qltest_skip c;
     ql.Class.qltest_collapse_hierarchy :=
       ql.Class.qltest_collapse_hierarchy c;
     ql.Class.qltest_uncollapse_hierarchy :=
       ql.Class.qltest_uncollapse_hierarchy c |}.

(** The state of a run: the text files, and the calls made to the
    renderer so far, oldest first. *)
Record state := {
  files : gmap string string;
  rendered : list (renderable * string);
}.

(** An empty file that the renderer has not been asked to write. *)
Definition untouched_empty (q : string) (st : state) : Prop :=
  files st !! q = Some "" ∧ ∀ d, (d, q) ∉ rendered st.

Section Driver.
Variable pathlib : Pathlib.
Variable qllib : QlLib.
(** The text the templates produce. *)
Variable render_text : renderable → string.
Variable opts : Opts.

Definition get_import (file swift_dir : string) : result string :=
  let* rel := relative_to pathlib file (joinpath pathlib swift_dir "ql/lib") in
  let* stem := with_suffix pathlib rel "" in
  Val (replace_char "/" "." stem).

(** Modelled from the spec: the renderer, which is outside this module,
    "accepts a structured record and a destination path, produces the
    textual artifact" and "tracks every path it has written". *)
Definition render (st : state) (data : renderable) (output : string) : state :=
  {| files := <[output := render_text data]> (files st);
     rendered := rendered st ++ [(data, output)] |}.

(** Lines 181-184: the generated files found before the run. *)
Definition existing_outputs (fs : gmap string string) : result (gset string) :=
  let existing : gset string :=
    list_to_set (rglob pathlib fs (ql_output opts) "*.qll") in
  let* stubs := filterM (_is_generated_stub fs)
                  (rglob pathlib fs (ql_stub_output opts) "*.qll") in
  Val (existing ∪ list_to_set stubs
       ∪ list_to_set (rglob pathlib fs (ql_test_output opts) "*.ql")
       ∪ list_to_set
           (rglob pathlib fs (ql_test_output opts) "MISSING_SOURCE.txt")).

(** Lines 193-194: the import path of every class, by class name. *)
Fixpoint build_imports (imports : gmap string string) (classes : list ql.Class)
  : result (gmap string string) :=
  match classes with
  | [] => Val imports
  | c :: cs =>
      let* i :=
        get_import (joinpath pathlib (ql_stub_output opts) (path qllib c))
                   (swift_dir opts) in
      build_imports (<[ql.Class.name c := i]> imports) cs
  end.

(** Lines 197-198, up to the call of the renderer. *)
Definition resolve_imports (imports : gmap string string) (c : ql.Class)
  : result (string * ql.Class) :=
  let* rel := with_suffix pathlib (path qllib c) ".qll" in
  let qll := joinpath pathlib (ql_output opts) rel in
  let* used := get_classes_used_by c in
  let* imps := mapM (getitem imports) used in
  Val (qll, set_imports c imps).

(** Lines 200-203, up to the call of the renderer: the stub to write
    and its file, or [None] when the stub is left alone. *)
Definition stub_to_write (fs : gmap string string) (qll : string) (c : ql.Class)
  : result (option (ql.Stub * string)) :=
  let* rel := with_suffix pathlib (path qllib c) ".qll" in
  let stub_file := joinpath pathlib (ql_stub_output opts) rel in
  let* regenerate :=
    if negb (bool_decide (is_Some (fs !! stub_file))) then Val true
    else _is_generated_stub fs stub_file in
  if regenerate then
    let* base_import := get_import qll (swift_dir opts) in
    Val (Some ({| ql.Stub.name := ql.Class.name c;
                  ql.Stub.base_import := base_import |},
               stub_file))
  else Val None.

(** One turn of the loop of lines 196-204.  The state reached is
    returned also when the turn raises. *)
Definition generate_class (imports : gmap string string) (st : state)
    (c : ql.Class) : state * result unit :=
  match resolve_imports imports c with
  | Raise e => (st, Raise e)
  | Val (qll, c') =>
      let st1 := render st (RClass c') qll in
      match stub_to_write (files st1) qll c' with
      | Raise e => (st1, Raise e)
      | Val None => (st1, Val tt)
      | Val (Some (stub, stub_file)) =>
          (render st1 (RStub stub) stub_file, Val tt)
      end
  end.

Fixpoint generate_classes (imports : gmap string string) (st : state)
    (classes : list ql.Class) : state * result unit :=
  match classes with
  | [] => (st, Val tt)
  | c :: cs =>
      match generate_class imports st c with
      | (st', Val _) => generate_classes imports st' cs
      | (st', Raise e) => (st', Raise e)
      end
  end.

(** Lines 181-204 of [generate], on the loaded, mapped and sorted
    [classes]: the files found, the import table, the definition and
    stub of every class.  The answer is the set [existing]. *)
Definition generate (fs : gmap string string) (classes : list ql.Class)
  : state * result (gset string) :=
  let st0 := {| files := fs; rendered := [] |} in
  match existing_outputs fs with
  | Raise e => (st0, Raise e)
  | Val existing =>
      match build_imports ∅ classes with
      | Raise e => (st0, Raise e)
      | Val imports =>
          match generate_classes imports st0 classes with
          | (st, Raise e) => (st, Raise e)
          | (st, Val _) => (st, Val existing)
          end
      end
  end.
End Driver.

(** ** Sample schemas and collaborators

    Small instances on which the definitions above are evaluated. *)

Module samples.

(** *** The interfaces

    Fragments of the packages, right on the plain names used below:
    one regular word, or words joined by an underscore. *)

Definition upper (c : ascii) : ascii :=
  if in_range 97 122 c then ascii_of_nat (nat_of_ascii c - 32) else c.

Definition lower (c : ascii) : ascii :=
  if in_range 65 90 c then ascii_of_nat (nat_of_ascii c + 32) else c.

Fixpoint lowercase (s : string) : string :=
  match s with
  | "" => ""
  | String c s' => String (lower c) (lowercase s')
  end.

Definition capitalize (s : string) : string :=
  match s with
  | "" => ""
  | String c s' => String (upper c) s'
  end.

Definition uncapitalize (s : string) : string :=
  match s with
  | "" => ""
  | String c s' => String (lower c) s'
  end.

Fixpoint ends_with (suffix s : string) : bool :=
  String.eqb suffix s ||
  match s with
  | "" => false
  | String _ s' => ends_with suffix s'
  end.

(** The part of [s] before its last [c], if [c] occurs. *)
Fixpoint before_last (c : ascii) (s : string) : option string :=
  match s with
  | "" => None
  | String a s' =>
      match before_last c s' with
      | Some r => Some (String a r)
      | None => if Ascii.eqb a c then Some "" else None
      end
  end.

Definition plural_of (s : string) : string :=
  if ends_with "s" s then s else s +:+ "s".

Definition singular_of (s : string) : string :=
  if ends_with "s" s then default s (before_last "s" s) else s.

Definition inflection : Inflection :=
  {| camelize := capitalize;
     camelize_lower := uncapitalize;
     singularize := singular_of;
     pluralize := plural_of;
     tableize := fun s => plural_of (lowercase s);
     underscore := lowercase |}.

Fixpoint strip_prefix (p s : string) : option string :=
  match p, s with
  | "", _ => Some s
  | String a p', String b s' =>
      if Ascii.eqb a b then strip_prefix p' s' else None
  | _, _ => None
  end.

Definition pathlib : Pathlib :=
  {| joinpath := fun a b => a +:+ "/" +:+ b;
     with_suffix := fun p suffix =>
       Val (default p (before_last "." p) +:+ suffix);
     relative_to := fun file base =>
       match strip_prefix (base +:+ "/") file with
       | Some rel => Val rel
       | None => Raise ValueError
       end;
     rglob := fun fs dir pattern =>
       let tail := match pattern with
                   | String "*" ext => ext
                   | _ => "/" +:+ pattern
                   end in
       filter (fun f =>
                 String.prefix (dir +:+ "/") f && ends_with tail f = true)
              (elements (dom fs)) |}.

Definition qllib : QlLib :=
  {| getter := fun p =>
       if ql.Property.is_predicate p then ql.Property.singular p
       else "get" +:+ ql.Property.singular p;
     is_repeated := fun p => bool_decide (is_Some (ql.Property.plural p));
     is_single := fun p =>
       negb (ql.Property.is_optional p
             || bool_decide (is_Some (ql.Property.plural p))
             || ql.Property.is_predicate p);
     path := fun c =>
       if String.eqb (ql.Class.dir c) "" then ql.Class.name c
       else ql.Class.dir c +:+ "/" +:+ ql.Class.name c |}.

Definition render_text (data : renderable) : string :=
  match data with
  | RClass c =>
      marker_line +:+ "class " +:+ ql.Class.name c +:+ "Base { }" +:+ NL
  | RStub s =>
      marker_line +:+ "private import " +:+ ql.Stub.base_import s +:+ NL +:+ NL
      +:+ "class " +:+ ql.Stub.name s +:+ " extends " +:+ ql.Stub.name s
      +:+ "Base { }" +:+ NL
  end.

Definition opts : Opts :=
  {| ql_output := "swift/ql/lib/codeql/swift/generated";
     ql_stub_output := "swift/ql/lib/codeql/swift/elements";
     ql_test_output := "swift/ql/test/extractor-tests/generated";
     swift_dir := "swift" |}.

(** *** A schema class with two single properties and a repeated one *)

Definition schema_property (name type : string) (single repeated : bool)
  : schema.Property :=
  {| schema.Property.name := name;
     schema.Property.type := type;
     schema.Property.is_child := false;
     schema.Property.pragmas := [];
     schema.Property.is_single := single;
     schema.Property.is_optional := false;
     schema.Property.is_repeated := repeated;
     schema.Property.is_predicate := false |}.

Definition name_prop : object schema.Property :=
  Obj 1 (schema_property "name" "string" true false).
Definition items_prop : object schema.Property :=
  Obj 2 (schema_property "items" "Item" false true).
Definition size_prop : object schema.Property :=
  Obj 3 (schema_property "size" "int" true false).

Definition leaf_schema : schema.Class :=
  {| schema.Class.name := "Leaf";
     schema.Class.bases := ["Base"];
     schema.Class.derived := [];
     schema.Class.properties := [name_prop; items_prop; size_prop];
     schema.Class.dir := "";
     schema.Class.pragmas := [] |}.

(** The same class, loaded again: other objects, same content. *)
Definition leaf_schema_again : schema.Class :=
  {| schema.Class.name := "Leaf";
     schema.Class.bases := ["Base"];
     schema.Class.derived := [];
     schema.Class.properties :=
       [Obj 11 (deref name_prop); Obj 12 (deref items_prop);
        Obj 13 (deref size_prop)];
     schema.Class.dir := "";
     schema.Class.pragmas := [] |}.

(** *** QL classes *)

Definition ql_property (singular type : string) (skip : bool) : ql.Property :=
  {| ql.Property.singular := singular;
     ql.Property.type := type;
     ql.Property.tablename := "";
     ql.Property.tableparams := [];
     ql.Property.plural := None;
     ql.Property.is_optional := false;
     ql.Property.is_predicate := false;
     ql.Property.is_child := false;
     ql.Property.qltest_skip := skip |}.

Definition ql_class (name : string) (bases : list string) (final : bool)
    (properties : list (object ql.Property))
    (collapse uncollapse : bool) : ql.Class :=
  {| ql.Class.name := name;
     ql.Class.bases := bases;
     ql.Class.final := final;
     ql.Class.properties := properties;
     ql.Class.dir := "";
     ql.Class.imports := [];
     ql.Class.qltest_skip := false;
     ql.Class.qltest_collapse_hierarchy := collapse;
     ql.Class.qltest_uncollapse_hierarchy := uncollapse |}.

Definition table (classes : list ql.Class) : gmap string ql.Class :=
  list_to_map (map (fun c => (ql.Class.name c, c)) classes).

(** The depth of a class along [Base], [Mid], [Leaf] and the like. *)
Definition depth (n : string) : nat :=
  if String.eqb n "Base" then 0
  else if String.eqb n "Mid" then 1
  else if String.eqb n "Left" then 1
  else if String.eqb n "Right" then 1
  else 2.

(** [Mid(Base)] is neither final nor marked; [Leaf(Mid)] is final. *)
Definition base : ql.Class := ql_class "Base" [] false [] false false.
Definition mid : ql.Class := ql_class "Mid" ["Base"] false [] false false.
Definition leaf : ql.Class :=
  ql_class "Leaf" ["Mid"] true
    [Obj 21 (ql_property "Name" "string" false);
     Obj 22 (ql_property "Items" "Item" false)]
    false false.
Definition item : ql.Class := ql_class "Item" [] true [] false false.
Definition plain : gmap string ql.Class := table [base; mid; leaf].

(** [Base] is marked collapse. *)
Definition base_c : ql.Class := ql_class "Base" [] false [] true false.
Definition collapsed : gmap string ql.Class := table [base_c; mid; leaf].

(** [Base] is marked collapse and [Mid] carries the override. *)
Definition mid_u : ql.Class := ql_class "Mid" ["Base"] false [] false true.
Definition overridden : gmap string ql.Class := table [base_c; mid_u; leaf].

(** A diamond: [Bottom(Left, Right)], [Left(Base)], [Right(Base)], with
    the property [P] declared by [Base]. *)
Definition P : object ql.Property := Obj 31 (ql_property "P" "string" false).
Definition top : ql.Class := ql_class "Base" [] false [P] false false.
Definition left_ : ql.Class := ql_class "Left" ["Base"] false [] false false.
Definition right_ : ql.Class := ql_class "Right" ["Base"] false [] false false.
Definition bottom : ql.Class :=
  ql_class "Bottom" ["Left"; "Right"] true [] false false.
Definition diamond : gmap string ql.Class := table [top; left_; right_; bottom].

(** *** Files *)

Definition leaf_stub_file : string :=
  "swift/ql/lib/codeql/swift/elements/Leaf.qll".

(** The stub of [Leaf] exists and is empty. *)
Definition empty_stub_fs : gmap string string := {[ leaf_stub_file := "" ]}.

End samples.

(** ** The rest of the generator

    The functions of [qlgen.py] around those above: [_partition], and
    the loop of [generate] that writes the test queries. *)

(** [_partition(l, pred)]: the loop appends each element to the first
    list when [pred] holds of it, to the second otherwise. *)
Definition _partition {A} (l : list A) (pred : A → bool) : list A * list A :=
  fold_left
    (fun res x =>
       if negb (pred x) then (res.1, res.2 ++ [x]) else (res.1 ++ [x], res.2))
    l ([], []).

(** The calls of the renderer that carry a class, oldest first. *)
Definition class_events (log : list (renderable * string))
  : list (ql.Class * string) :=
  omap (fun ev => match ev.1 with
                  | RClass c => Some (c, ev.2)
                  | RStub _ => None
                  end) log.

(** A file as it was before the run, that the renderer has not been
    asked to write. *)
Definition untouched (fs : gmap string string) (q : string) (st : state)
  : Prop :=
  files st !! q = fs !! q ∧ ∀ d, (d, q) ∉ rendered st.

(** What the loop of lines 213-229 hands to the renderer. *)
Inductive test_renderable :=
  | RMissingTestInstructions
  | RClassTester (class_name : string) (properties : list ql.PropertyForTest)
  | RPropertyTester (class_name : string) (property : ql.PropertyForTest).

(** The state of that loop: the text files, the directories made, the
    warnings logged and the calls made to the renderer, oldest first. *)
Record test_state := {
  tfiles : gmap string string;
  made : list string;
  warnings : list string;
  trendered : list (test_renderable * string);
}.

Definition missing_test_source_filename : string := "MISSING_SOURCE.txt".

Section Tests.
Variable pathlib : Pathlib.
(** [dir.glob(pattern)] over the files of the file system *)
Variable glob : gmap string string → string → string → list string.
Variable qllib : QlLib.
(** The text the test templates produce. *)
Variable test_text : test_renderable → string.
Variable opts : Opts.

(** Modelled from the spec: the renderer, as for [render]. *)
Definition render_test (st : test_state) (data : test_renderable)
    (output : string) : test_state :=
  {| tfiles := <[output := test_text data]> (tfiles st);
     made := made st;
     warnings := warnings st;
     trendered := trendered st ++ [(data, output)] |}.

(** [test_dir.mkdir(parents=True, exist_ok=True)], taken to succeed. *)
Definition mkdir (st : test_state) (dir : string) : test_state :=
  {| tfiles := tfiles st;
     made := made st ++ [dir];
     warnings := warnings st;
     trendered := trendered st |}.

(** [log.warning(msg)] *)
Definition warning (st : test_state) (msg : string) : test_state :=
  {| tfiles := tfiles st;
     made := made st;
     warnings := warnings st ++ [msg];
     trendered := trendered st |}.

(** [lambda p: p.is_single or p.is_predicate] *)
Definition is_total (p : ql.PropertyForTest) : bool :=
  ql.PropertyForTest.is_single p || ql.PropertyForTest.is_predicate p.

Definition test_dir_of (c : ql.Class) : string :=
  joinpath pathlib (ql_test_output opts) (path qllib c).

(** The loop of lines 227-229. *)
Definition render_partial (st : test_state) (c : ql.Class)
    (partial_props : list ql.PropertyForTest) : test_state :=
  fold_left
    (fun st p =>
       render_test st (RPropertyTester (ql.Class.name c) p)
         (joinpath pathlib (test_dir_of c)
            (ql.Class.name c +:+ "_" +:+ ql.PropertyForTest.getter p
             +:+ ".ql")))
    partial_props st.

(** The calls of lines 225-229 for a class with test sources, given
    its properties to be tested: the class tester on the properties
    that are single or predicates, then a property tester for each of
    the others.  Used to state what the loop does. *)
Definition tester_calls (c : ql.Class) (props : list ql.PropertyForTest)
  : list (test_renderable * string) :=
  (RClassTester (ql.Class.name c) (filter (fun p => is_total p = true) props),
   joinpath pathlib (test_dir_of c) (ql.Class.name c +:+ ".ql"))
  :: map (fun p =>
            (RPropertyTester (ql.Class.name c) p,
             joinpath pathlib (test_dir_of c)
               (ql.Class.name c +:+ "_" +:+ ql.PropertyForTest.getter p
                +:+ ".ql")))
         (filter (fun p => is_total p = false) props).

(** One turn of the loop of lines 213-229.  The state reached is
    returned also when the turn raises. *)
Definition generate_test (fuel : nat) (lookup : gmap string ql.Class)
    (st : test_state) (c : ql.Class) : test_state * result unit :=
  match _should_skip_qltest fuel c lookup with
  | Raise e => (st, Raise e)
  | Val true => (st, Val tt)
  | Val false =>
      let test_dir := test_dir_of c in
      let st1 := mkdir st test_dir in
      if negb (bool_decide (glob (tfiles st1) test_dir "*.swift" ≠ [])) then
        let st2 := warning st1 ("no test source in " +:+ path qllib c) in
        (render_test st2 RMissingTestInstructions
           (joinpath pathlib test_dir missing_test_source_filename),
         Val tt)
      else
        match _get_all_properties_to_be_tested qllib fuel c lookup with
        | Raise e => (st1, Raise e)
        | Val props =>
            let '(total_props, partial_props) := _partition props is_total in
            let st2 :=
              render_test st1 (RClassTester (ql.Class.name c) total_props)
                (joinpath pathlib test_dir (ql.Class.name c +:+ ".ql")) in
            (render_partial st2 c partial_props, Val tt)
        end
  end.

Fixpoint generate_tests (fuel : nat) (lookup : gmap string ql.Class)
    (st : test_state) (classes : list ql.Class) : test_state * result unit :=
  match classes with
  | [] => (st, Val tt)
  | c :: cs =>
      match generate_test fuel lookup st c with
      | (st', Val _) => generate_tests fuel lookup st' cs
      | (st', Raise e) => (st', Raise e)
      end
  end.
End Tests.

(** ** Sample runs

    File systems and classes on which the rest of the generator is
    evaluated, over the collaborators of [samples]. *)

Module runs.

(** [dir.glob("*.ext")]: the files right in [dir] with that ending. *)
Definition glob (fs : gmap string string) (dir pattern : string)
  : list string :=
  let tail := match pattern with
              | String "*" ext => ext
              | _ => pattern
              end in
  filter (fun f =>
            match samples.strip_prefix (dir +:+ "/") f with
            | Some name =>
                all_chars (fun c => negb (Ascii.eqb c "/")) name
                && samples.ends_with tail name
            | None => false
            end = true)
         (elements (dom fs)).

Definition test_text (data : test_renderable) : string :=
  match data with
  | RMissingTestInstructions => "add a swift source file to this directory"
  | RClassTester class_name _ =>
      marker_line +:+ "from " +:+ class_name +:+ " x select x" +:+ NL
  | RPropertyTester class_name property =>
      marker_line +:+ "from " +:+ class_name +:+ " x select x."
      +:+ ql.PropertyForTest.getter property +:+ "(_)" +:+ NL
  end.

(** *** Stubs *)

(** The stub of [Leaf] as the generator wrote it. *)
Definition pristine_fs : gmap string string :=
  {[ samples.leaf_stub_file := pristine_stub ]}.

(** The stub of [Leaf], marked as generated, with a second marker line. *)
Definition modified_fs : gmap string string :=
  {[ samples.leaf_stub_file := two_marker_stub ]}.

(** The stub of [Leaf] taken over by its user: the marker is gone. *)
Definition user_stub : string :=
  "private import codeql.swift.generated.Leaf

class Leaf extends LeafBase {
  override string toString() { result = getName() }
}
".

Definition user_fs : gmap string string :=
  {[ samples.leaf_stub_file := user_stub ]}.

(** A file of one class in a subdirectory. *)
Definition call_stub_file : string :=
  "swift/ql/lib/codeql/swift/elements/expr/Call.qll".

(** *** Classes *)

(** [Orphan(Base, Ghost, Mid)], where [Ghost] is the name of no class. *)
Definition orphan : ql.Class :=
  samples.ql_class "Orphan" ["Base"; "Ghost"; "Mid"] true [] false false.

(** [Shelf], final, with a single property and a repeated one. *)
Definition label : object ql.Property :=
  Obj 41 (samples.ql_property "Label" "string" false).

Definition books : object ql.Property :=
  Obj 42 {| ql.Property.singular := "Book";
            ql.Property.type := "Item";
            ql.Property.tablename := "shelf_books";
            ql.Property.tableparams := ["this"; "index"; "result"];
            ql.Property.plural := Some "Books";
            ql.Property.is_optional := false;
            ql.Property.is_predicate := false;
            ql.Property.is_child := false;
            ql.Property.qltest_skip := false |}.

Definition shelf : ql.Class :=
  samples.ql_class "Shelf" [] true [label; books] false false.

Definition library : gmap string ql.Class :=
  samples.table [samples.base; samples.mid; samples.leaf; shelf].

(** *** Test directories *)

(** [Shelf] has a test source, [Leaf] has none. *)
Definition shelf_source : string :=
  "swift/ql/test/extractor-tests/generated/Shelf/shelf.swift".

Definition before_tests : test_state :=
  {| tfiles := {[ shelf_source := "let shelf = Shelf()" ]};
     made := [];
     warnings := [];
     trendered := [] |}.

End runs.

(** * Properties *)

Local Open Scope nat_scope.

(** ** Relational mapper *)

Section MapperFacts.
Variable infl : Inflection.

Lemma slots_of_others (prop : object schema.Property) l :
  oid prop ∉ map oid l →
  map (fun p => if is_ p prop then "result" else "_") l
  = replicate (length l) "_".
Proof.
  induction l as [|q l IH]; intros Hid; [done|].
  cbn [map length replicate]. unfold is_ at 1.
  destruct (Nat.eqb_spec (oid q) (oid prop)) as [Heq|Hne].
  - exfalso. apply Hid. rewrite <- Heq. cbn. left.
  - f_equal. apply IH. intros Hin. apply Hid. cbn. by right.
Qed.

Lemma count_replicate_ignore n :
  count_occ string_dec (replicate n "_") "result" = 0.
Proof.
  induction n as [|n IH]; [done|]. cbn [replicate count_occ].
  by destruct (string_dec "_" "result").
Qed.

(** C1: the column binding of a single property is the "this" slot
    followed by one slot per single property of the class in declared
    order, "result" at the property's own place and "_" elsewhere; so
    it holds exactly one "result", its length is one more than the
    number of single properties, and the table is the tableized class
    name.  The properties of a class are distinct objects. *)
Theorem single_property_layout (cls : schema.Class)
    (prop : object schema.Property) :
  prop ∈ schema.Class.properties cls →
  NoDup (map oid (schema.Class.properties cls)) →
  schema.Property.is_single (deref prop) = true →
  ∃ qp before after,
    get_ql_property infl cls prop = Some qp
    ∧ ql.Property.tablename qp = tableize infl (schema.Class.name cls)
    ∧ filter single (schema.Class.properties cls) = before ++ prop :: after
    ∧ ql.Property.tableparams qp
      = "this" :: replicate (length before) "_"
               ++ "result" :: replicate (length after) "_"
    ∧ length (ql.Property.tableparams qp)
      = 1 + length (filter single (schema.Class.properties cls))
    ∧ count_occ string_dec (ql.Property.tableparams qp) "result" = 1.
Proof.
  intros Hin Hnd Hsingle.
  assert (Hf : prop ∈ filter single (schema.Class.properties cls))
    by (apply list_elem_of_filter; done).
  destruct (list_elem_of_split _ _ Hf) as (before & after & Hsplit).
  assert (Hnd' : NoDup (map oid (before ++ prop :: after))).
  { rewrite <- Hsplit. eapply sublist_NoDup; [exact Hnd|].
    apply (fmap_sublist oid), sublist_filter. }
  rewrite map_app in Hnd'. cbn [map] in Hnd'.
  apply NoDup_app in Hnd' as (_ & Hdisj & Hnd').
  apply NoDup_cons in Hnd' as [Hafter _].
  assert (Hbefore : oid prop ∉ map oid before).
  { intros Hb. apply (Hdisj _ Hb). left. }
  assert (Hparams : single_slots cls prop
          = replicate (length before) "_"
            ++ "result" :: replicate (length after) "_").
  { unfold single_slots. fold single. rewrite Hsplit, map_app. cbn [map].
    rewrite !slots_of_others by done.
    unfold is_. by rewrite Nat.eqb_refl. }
  eexists _, before, after.
  unfold get_ql_property. rewrite Hsingle.
  split; [reflexivity|]. cbn [ql.Property.tablename ql.Property.tableparams].
  split; [reflexivity|]. split; [done|].
  rewrite Hparams. split; [done|]. split.
  - rewrite Hsplit. cbn [length]. rewrite !length_app. cbn [length].
    by rewrite !length_replicate.
  - cbn [count_occ]. destruct (string_dec "this" "result"); [done|].
    rewrite count_occ_app, count_replicate_ignore. cbn [count_occ].
    destruct (string_dec "result" "result"); [|done].
    by rewrite count_replicate_ignore.
Qed.

Lemma map_eq_pointwise {A B} (f g : A → B) (l : list A) (x : A) :
  map f l = map g l → x ∈ l → f x = g x.
Proof.
  induction l as [|y l IH]; intros Heq Hx; [by apply elem_of_nil in Hx|].
  cbn in Heq. injection Heq as Hy Hl.
  apply elem_of_cons in Hx as [->|Hx]; [done|by apply IH].
Qed.

Lemma slots_agree (prop1 prop2 : object schema.Property) l1 l2 :
  Forall2 (fun p1 p2 => deref p1 = deref p2 ∧ is_ p1 prop1 = is_ p2 prop2)
          l1 l2 →
  map (fun p => if is_ p prop1 then "result" else "_") (filter single l1)
  = map (fun p => if is_ p prop2 then "result" else "_") (filter single l2).
Proof.
  induction 1 as [|p1 p2 l1 l2 [Hd Hi] _ IH]; [done|].
  rewrite !filter_cons.
  destruct (decide (single p1)) as [H1|H1], (decide (single p2)) as [H2|H2];
    unfold single in H1, H2; rewrite ?Hd in H1; try done.
  cbn [map]. by rewrite Hi, IH.
Qed.

Lemma is_at_index (l : list (object schema.Property)) (i j : nat) p q :
  NoDup (map oid l) → l !! i = Some p → l !! j = Some q →
  is_ q p = bool_decide (j = i).
Proof.
  intros Hnd Hi Hj. unfold is_.
  change (map oid l) with (oid <$> l) in Hnd.
  destruct (Nat.eqb_spec (oid q) (oid p)) as [Heq|Hne].
  - symmetry. apply bool_decide_eq_true.
    apply (NoDup_lookup _ _ _ (oid q) Hnd).
    + by rewrite list_lookup_fmap, Hj.
    + by rewrite list_lookup_fmap, Hi, Heq.
  - symmetry. apply bool_decide_eq_false. intros ->. congruence.
Qed.

(** C8, as the code has it: mapping two loads of one schema gives the
    same properties, table names and column bindings included; the
    table names are not injective, for two distinct single properties
    of a class share the table of the class, and differ in their
    column bindings. *)
Theorem mapper_deterministic (cls1 cls2 : schema.Class) :
  same_content cls1 cls2 →
  NoDup (map oid (schema.Class.properties cls1)) →
  NoDup (map oid (schema.Class.properties cls2)) →
  map (get_ql_property infl cls1) (schema.Class.properties cls1)
  = map (get_ql_property infl cls2) (schema.Class.properties cls2)
  ∧ ∀ p q, p ∈ schema.Class.properties cls1 → q ∈ schema.Class.properties cls1 →
      oid p ≠ oid q → single p → single q →
      ∃ qp qq, get_ql_property infl cls1 p = Some qp
        ∧ get_ql_property infl cls1 q = Some qq
        ∧ ql.Property.tablename qp = ql.Property.tablename qq
        ∧ ql.Property.tableparams qp ≠ ql.Property.tableparams qq.
Proof.
  intros [Hname Hprops] Hnd1 Hnd2. split.
  - change (get_ql_property infl cls1 <$> schema.Class.properties cls1
            = get_ql_property infl cls2 <$> schema.Class.properties cls2).
    change (deref <$> schema.Class.properties cls1
            = deref <$> schema.Class.properties cls2) in Hprops.
    assert (Hpair : ∀ j a b, schema.Class.properties cls1 !! j = Some a →
              schema.Class.properties cls2 !! j = Some b → deref a = deref b).
    { intros j a b Ha Hb.
      assert (H : (deref <$> schema.Class.properties cls1) !! j = Some (deref a))
        by (by rewrite list_lookup_fmap, Ha).
      rewrite Hprops, list_lookup_fmap, Hb in H. by injection H. }
    assert (Hlen : length (schema.Class.properties cls1)
                   = length (schema.Class.properties cls2)).
    { by rewrite <- (length_fmap deref), Hprops, length_fmap. }
    apply list_eq. intros i. rewrite !list_lookup_fmap.
    destruct (schema.Class.properties cls1 !! i) as [x|] eqn:Hx.
    2:{ apply lookup_ge_None in Hx. rewrite Hlen in Hx.
        apply lookup_ge_None in Hx. by rewrite Hx. }
    destruct (schema.Class.properties cls2 !! i) as [y|] eqn:Hy.
    2:{ apply lookup_ge_None in Hy. rewrite <- Hlen in Hy.
        apply lookup_ge_None in Hy. congruence. }
    cbn. f_equal. unfold get_ql_property, single_slots.
    rewrite (Hpair i x y Hx Hy), Hname.
    rewrite (slots_agree x y (schema.Class.properties cls1) (schema.Class.properties cls2));
      [done|].
    apply Forall2_same_length_lookup_2; [done|]. intros j a b Ha Hb.
    split; [by eapply Hpair|].
    by rewrite (is_at_index _ i j x a Hnd1 Hx Ha),
               (is_at_index _ i j y b Hnd2 Hy Hb).
  - intros p q Hp Hq Hne Hsp Hsq. unfold get_ql_property.
    unfold single in Hsp, Hsq. rewrite Hsp, Hsq.
    eexists _, _. split; [done|]. split; [done|].
    cbn [ql.Property.tablename ql.Property.tableparams]. split; [done|].
    intros Heq. injection Heq as Heq. unfold single_slots in Heq.
    assert (Hpf : p ∈ filter single (schema.Class.properties cls1))
      by (by apply list_elem_of_filter).
    pose proof (map_eq_pointwise _ _ _ p Heq Hpf) as H. cbn in H.
    unfold is_ in H. rewrite Nat.eqb_refl in H.
    destruct (Nat.eqb_spec (oid p) (oid q)); [done|discriminate].
Qed.
End MapperFacts.

(** ** Import resolver *)

Lemma ascii_compare_eq (a b : ascii) : Ascii.compare a b = Eq → a = b.
Proof.
  unfold Ascii.compare. intros H. apply N.compare_eq in H.
  rewrite <- (ascii_N_embedding a), <- (ascii_N_embedding b). by rewrite H.
Qed.

Lemma ascii_compare_trans (a b c : ascii) :
  Ascii.compare a b = Lt → Ascii.compare b c = Lt → Ascii.compare a c = Lt.
Proof.
  unfold Ascii.compare. rewrite !N.compare_lt_iff. apply N.lt_trans.
Qed.

Lemma str_le_cons (a b : ascii) (s t : string) :
  str_le (String a s) (String b t)
  ↔ Ascii.compare a b = Lt ∨ (a = b ∧ str_le s t).
Proof.
  unfold str_le, String.leb. cbn [String.compare].
  destruct (Ascii.compare a b) eqn:Hab.
  - apply ascii_compare_eq in Hab. split; [intros H; by right|].
    by intros [?|[_ ?]].
  - split; [by left|done].
  - split; [done|]. intros [?|[-> _]]; [done|].
    unfold Ascii.compare in Hab. by rewrite N.compare_refl in Hab.
Qed.

#[local] Instance str_le_trans : Transitive str_le.
Proof.
  intros s. induction s as [|a s IH]; intros t u Hst Htu.
  - by destruct u.
  - destruct t as [|b t]; [done|]. destruct u as [|c u]; [done|].
    apply str_le_cons in Hst, Htu. apply str_le_cons.
    destruct Hst as [Hab|[-> Hst]], Htu as [Hbc|[-> Htu]].
    + left. by eapply ascii_compare_trans.
    + by left.
    + by left.
    + right. split; [done|]. by eapply IH.
Qed.

#[local] Instance str_le_total : Total str_le.
Proof. intros s t. apply String.leb_total. Qed.

#[local] Instance str_le_antisym : AntiSymm eq str_le.
Proof. intros s t. apply String.leb_antisym. Qed.

Lemma filterM_spec {A} (f : A → result bool) (g : A → bool) (l : list A) :
  (∀ x, x ∈ l → f x = Val (g x)) →
  filterM f l = Val (filter (fun x => g x = true) l).
Proof.
  induction l as [|x l IH]; intros Hf; [done|]. cbn [filterM].
  rewrite (Hf x) by left. rewrite IH by (intros y Hy; apply Hf; by right).
  unfold bind. rewrite filter_cons. by destruct (g x).
Qed.

(** What [get_types_used_by] yields: the base names and the declared
    types of the properties, and nothing else. *)
Lemma types_used_by_members (cls : ql.Class) (t : string) :
  t ∈ get_types_used_by cls
  ↔ t ∈ ql.Class.bases cls
    ∨ ∃ p, p ∈ ql.Class.properties cls ∧ ql.Property.type (deref p) = t.
Proof.
  unfold get_types_used_by. rewrite elem_of_app. split.
  - intros [Hb|Hp]; [by left|]. right.
    apply list_elem_of_In, in_map_iff in Hp as (p & Hp & Hin).
    exists p. by rewrite list_elem_of_In.
  - intros [Hb|(p & Hin & Hp)]; [by left|]. right.
    apply list_elem_of_In, in_map_iff. exists p.
    by rewrite <- list_elem_of_In.
Qed.

(** C7: the class references of a class are the names of its bases
    and the declared types of its properties that start with an
    uppercase letter, each once, in increasing order; the list does
    not depend on the order in which the set is walked.  Type names
    are not empty. *)
Theorem classes_used_by_sorted_set (cls : ql.Class) :
  (∀ b, b ∈ ql.Class.bases cls → b ≠ "") →
  (∀ p, p ∈ ql.Class.properties cls → ql.Property.type (deref p) ≠ "") →
  ∃ l, get_classes_used_by cls = Val l
    ∧ (∀ t, t ∈ l ↔
            (t ∈ ql.Class.bases cls
             ∨ ∃ p, p ∈ ql.Class.properties cls
                    ∧ ql.Property.type (deref p) = t)
            ∧ starts_upper t = true)
    ∧ (∀ t, t ∈ l ↔ t ∈ get_types_used_by cls ∧ starts_upper t = true)
    ∧ NoDup l
    ∧ Sorted str_le l
    ∧ (∀ l', NoDup l' → Sorted str_le l' → (∀ t, t ∈ l' ↔ t ∈ l) → l' = l)
    ∧ (∀ walk : list string,
         walk ≡ₚ elements (list_to_set
                   (filter (fun t => starts_upper t = true)
                           (ql.Class.bases cls
                            ++ map (fun p => ql.Property.type (deref p))
                                 (ql.Class.properties cls))) : gset string) →
         merge_sort str_le walk = l).
Proof.
  intros Hbases Hprops.
  assert (Hne : ∀ t, t ∈ get_types_used_by cls → t ≠ "").
  { intros t Ht. apply types_used_by_members in Ht as [Hb|(p & Hp & <-)];
      [by apply Hbases|by apply Hprops]. }
  unfold get_classes_used_by.
  rewrite (filterM_spec _ starts_upper).
  2:{ intros t Ht. specialize (Hne t Ht). by destruct t. }
  cbn. eexists. split; [done|]. unfold sorted_set.
  set (S := list_to_set _ : gset string).
  assert (Hperm : merge_sort str_le (elements S) ≡ₚ elements S)
    by apply merge_sort_Permutation.
  assert (Hmem : ∀ t, t ∈ merge_sort str_le (elements S)
                      ↔ t ∈ get_types_used_by cls ∧ starts_upper t = true).
  { intros t. rewrite Hperm, elem_of_elements. unfold S.
    rewrite elem_of_list_to_set, list_elem_of_filter. tauto. }
  assert (Hnd : NoDup (merge_sort str_le (elements S))).
  { rewrite Hperm. apply NoDup_elements. }
  assert (Hsorted : Sorted str_le (merge_sort str_le (elements S)))
    by apply (Sorted_merge_sort _).
  split; [intros t; by rewrite Hmem, types_used_by_members|].
  split; [done|]. split; [done|]. split; [done|]. split.
  - intros l' Hnd' Hs' Hmem'. apply (Sorted_unique str_le); try done.
    by apply NoDup_Permutation.
  - intros walk Hwalk. apply (Sorted_unique str_le).
    + apply (Sorted_merge_sort _).
    + done.
    + by rewrite merge_sort_Permutation, Hwalk, Hperm.
Qed.

(** ** Regular expressions and the stub guard *)

Section StubGuardFacts.
#[local] Arguments String.append !s1 s2 : simpl nomatch.


Lemma append_nil_r (s : string) : s +:+ "" = s.
Proof. induction s as [|c s IH]; [done|]. cbn. by rewrite IH. Qed.

Lemma append_assoc (s t u : string) : (s +:+ t) +:+ u = s +:+ (t +:+ u).
Proof. induction s as [|c s IH]; [done|]. cbn. by rewrite IH. Qed.

Lemma append_eq_nil (s t : string) : s +:+ t = "" → s = "" ∧ t = "".
Proof. destruct s; [done|]. discriminate. Qed.

Lemma empty_inv (s : string) : ¬ Matches Empty s.
Proof. inversion 1. Qed.

Lemma eps_inv (s : string) : Matches Eps s → s = "".
Proof. by inversion 1. Qed.

Lemma chr_inv (f : ascii → bool) (s : string) :
  Matches (Chr f) s → ∃ c, s = String c "" ∧ f c = true.
Proof. inversion 1; subst. eauto. Qed.

Lemma seq_inv (r1 r2 : regex) (s : string) :
  Matches (Seq r1 r2) s →
  ∃ s1 s2, s = s1 +:+ s2 ∧ Matches r1 s1 ∧ Matches r2 s2.
Proof. inversion 1; subst. eauto. Qed.

Lemma alt_inv (r1 r2 : regex) (s : string) :
  Matches (Alt r1 r2) s → Matches r1 s ∨ Matches r2 s.
Proof. inversion 1; subst; auto. Qed.

Lemma nullable_spec (r : regex) : nullable r = true ↔ Matches r "".
Proof.
  induction r as [| |f|r1 IH1 r2 IH2|r1 IH1 r2 IH2|r IH]; cbn.
  - split; [done|]. intros H. by apply empty_inv in H.
  - split; [constructor|done].
  - split; [done|]. intros H. by destruct (chr_inv _ _ H) as (c & ? & _).
  - rewrite andb_true_iff, IH1, IH2. split.
    + intros [H1 H2]. apply (MSeq _ _ "" "" H1 H2).
    + intros H. destruct (seq_inv _ _ _ H) as (s1 & s2 & Heq & H1 & H2).
      symmetry in Heq. by destruct (append_eq_nil _ _ Heq) as [-> ->].
  - rewrite orb_true_iff, IH1, IH2. split.
    + intros [H|H]; [by apply MAltL|by apply MAltR].
    + apply alt_inv.
  - split; [constructor|done].
Qed.

(** A word of [Star r] that starts with [c] starts with a word of [r]
    that starts with [c]. *)
Lemma star_cons_inv (r : regex) (c : ascii) (s : string) :
  Matches (Star r) (String c s) →
  ∃ s1 s2, s = s1 +:+ s2 ∧ Matches r (String c s1) ∧ Matches (Star r) s2.
Proof.
  intros H. remember (Star r) as r' eqn:Hr. remember (String c s) as w eqn:Hw.
  revert s Hw.
  induction H as [| | | | | |r0 s1 s2 H1 _ H2 IH2]; intros t Hw; try discriminate.
  injection Hr as ->. destruct s1 as [|c1 s1]; cbn in Hw.
  - by apply IH2.
  - injection Hw as -> <-. by exists s1, s2.
Qed.

Lemma deriv_spec (c : ascii) (r : regex) (s : string) :
  Matches (deriv c r) s ↔ Matches r (String c s).
Proof.
  revert s.
  induction r as [| |f|r1 IH1 r2 IH2|r1 IH1 r2 IH2|r IH]; intros s; cbn.
  - split; intros H; by apply empty_inv in H.
  - split; intros H; [by apply empty_inv in H|by apply eps_inv in H].
  - destruct (f c) eqn:Hf; split; intros H.
    + apply eps_inv in H as ->. by constructor.
    + destruct (chr_inv _ _ H) as (c' & [= -> ->] & _). constructor.
    + by apply empty_inv in H.
    + destruct (chr_inv _ _ H) as (c' & [= -> ->] & Hc). congruence.
  - assert (Hseq : Matches (Seq (deriv c r1) r2) s
                   → Matches (Seq r1 r2) (String c s)).
    { intros H. destruct (seq_inv _ _ _ H) as (s1 & s2 & -> & H1 & H2).
      apply IH1 in H1. apply (MSeq _ _ _ _ H1 H2). }
    assert (Hinv : Matches (Seq r1 r2) (String c s)
                   → Matches (Seq (deriv c r1) r2) s
                     ∨ (Matches r1 "" ∧ Matches r2 (String c s))).
    { intros H. destruct (seq_inv _ _ _ H) as (s1 & s2 & Heq & H1 & H2).
      destruct s1 as [|c1 s1]; cbn in Heq.
      - right. by rewrite Heq.
      - injection Heq as <- ->. left. apply IH1 in H1. by constructor. }
    destruct (nullable r1) eqn:Hn; split.
    + intros H. destruct (alt_inv _ _ _ H) as [H'|H']; [by apply Hseq|].
      apply nullable_spec in Hn. apply (MSeq _ _ "" _ Hn). by apply IH2.
    + intros H. destruct (Hinv H) as [H'|[_ H']]; [by apply MAltL|].
      apply MAltR. by apply IH2.
    + apply Hseq.
    + intros H. destruct (Hinv H) as [H'|[H' _]]; [done|].
      apply nullable_spec in H'. congruence.
  - split; intros H; destruct (alt_inv _ _ _ H) as [H'|H'].
    + apply MAltL. by apply IH1.
    + apply MAltR. by apply IH2.
    + apply MAltL. by apply IH1.
    + apply MAltR. by apply IH2.
  - split.
    + intros H. destruct (seq_inv _ _ _ H) as (s1 & s2 & -> & H1 & H2).
      apply IH in H1. apply (MStarS _ _ _ H1 H2).
    + intros H. destruct (star_cons_inv _ _ _ H) as (s1 & s2 & -> & H1 & H2).
      constructor; [by apply IH|done].
Qed.

(** [re_match] answers whether some prefix of the string is a word. *)
Lemma re_match_spec (r : regex) (s : string) :
  re_match r s = true ↔ ∃ p rest, s = p +:+ rest ∧ Matches r p.
Proof.
  revert r. induction s as [|c s IH]; intros r; cbn.
  - rewrite orb_false_r, nullable_spec. split.
    + intros H. by exists "", "".
    + intros (p & rest & Heq & H). symmetry in Heq.
      by destruct (append_eq_nil _ _ Heq) as [-> _].
  - rewrite orb_true_iff, nullable_spec, IH. split.
    + intros [H|(p & rest & -> & H)].
      * by exists "", (String c s).
      * exists (String c p), rest. split; [done|]. by apply deriv_spec.
    + intros (p & rest & Heq & H). destruct p as [|c' p]; [by left|].
      cbn in Heq. injection Heq as <- ->. right.
      exists p, rest. split; [done|]. by apply deriv_spec.
Qed.

Lemma lit_spec (s p : string) : Matches (lit s) p ↔ p = s.
Proof.
  revert p. induction s as [|c s IH]; intros p; cbn.
  - split; [apply eps_inv|intros ->; constructor].
  - split.
    + intros H. destruct (seq_inv _ _ _ H) as (s1 & s2 & -> & H1 & H2).
      destruct (chr_inv _ _ H1) as (c' & -> & Hc).
      apply Ascii.eqb_eq in Hc as ->. apply IH in H2 as ->. done.
    + intros ->. apply (MSeq _ _ (String c "") s).
      * constructor. apply Ascii.eqb_refl.
      * by apply IH.
Qed.

Lemma star_chr_spec (f : ascii → bool) (p : string) :
  Matches (Star (Chr f)) p ↔ all_chars f p = true.
Proof.
  induction p as [|c p IH]; cbn.
  - split; [done|constructor].
  - rewrite andb_true_iff, <- IH. split.
    + intros H. destruct (star_cons_inv _ _ _ H) as (s1 & s2 & -> & H1 & H2).
      destruct (chr_inv _ _ H1) as (c' & [= <- ->] & Hc). done.
    + intros [Hc H]. apply (MStarS _ (String c "") p); [by constructor|done].
Qed.

Lemma plus_chr_spec (f : ascii → bool) (p : string) :
  Matches (Plus (Chr f)) p ↔ p ≠ "" ∧ all_chars f p = true.
Proof.
  unfold Plus. split.
  - intros H. destruct (seq_inv _ _ _ H) as (s1 & s2 & -> & H1 & H2).
    destruct (chr_inv _ _ H1) as (c & -> & Hc). apply star_chr_spec in H2.
    cbn. by rewrite Hc, H2.
  - intros [Hne H]. destruct p as [|c p]; [done|]. cbn in H.
    apply andb_true_iff in H as [Hc H].
    apply (MSeq _ _ (String c "") p); [by constructor|by apply star_chr_spec].
Qed.

(** The compiled pattern accepts exactly the texts of the shape. *)
Lemma generated_stub_re_spec (s : string) :
  re_match _generated_stub_re s = true ↔ stub_shaped s.
Proof.
  rewrite re_match_spec. unfold _generated_stub_re, stub_shaped. split.
  - intros (p & tail & -> & H).
    apply seq_inv in H as (p1 & q1 & -> & H1 & H).
    apply seq_inv in H as (imp & q2 & -> & H2 & H).
    apply seq_inv in H as (p3 & q3 & -> & H3 & H).
    apply seq_inv in H as (cls & q4 & -> & H4 & H).
    apply seq_inv in H as (p5 & q5 & -> & H5 & H).
    apply seq_inv in H as (base & q6 & -> & H6 & H).
    apply seq_inv in H as (p7 & q7 & -> & H7 & H).
    apply seq_inv in H as (sep & p9 & -> & H8 & H9).
    apply lit_spec in H1 as ->, H3 as ->, H5 as ->, H7 as ->, H9 as ->.
    apply star_chr_spec in H2. apply plus_chr_spec in H4 as [? ?], H6 as [? ?].
    apply chr_inv in H8 as (c & -> & Hc).
    exists imp, cls, base, (String c ""), tail.
    split; [|repeat split; try assumption].
    + rewrite !append_assoc. reflexivity.
    + apply orb_true_iff in Hc as [Hc|Hc]; apply Ascii.eqb_eq in Hc as ->;
        [by left|by right].
  - intros (imp & cls & base & sep & tail & -> & Himp & ? & Hcls & ? & Hbase & Hsep).
    exists ("private import " +:+ imp +:+ NL +:+ NL +:+ "class " +:+ cls
            +:+ " extends " +:+ base +:+ " {" +:+ sep +:+ "}"), tail.
    split; [by rewrite !append_assoc|].
    apply MSeq; [by apply lit_spec|].
    apply MSeq; [by apply star_chr_spec|].
    apply (MSeq _ _ (NL +:+ NL +:+ "class ")); [by apply lit_spec|].
    apply MSeq; [by apply plus_chr_spec|].
    apply MSeq; [by apply lit_spec|].
    apply MSeq; [by apply plus_chr_spec|].
    apply MSeq; [by apply lit_spec|].
    apply MSeq; [|by apply lit_spec].
    destruct Hsep as [-> | ->]; by constructor.
Qed.

Lemma captured_full (rest : list string) :
  Nat.eqb (length (take line_threshold rest)) line_threshold = true
  ↔ line_threshold ≤ length rest.
Proof. rewrite Nat.eqb_eq, length_take. lia. Qed.

Lemma marker_not_shaped (line : string) (s : string) :
  String.prefix "// generated" line = true → ¬ stub_shaped (line +:+ s).
Proof.
  intros Hp (imp & cls & base & sep & tail & Heq & _).
  destruct line as [|c line]; [discriminate Hp|].
  change (String.prefix "// generated" (String c line))
    with (if ascii_dec "/" c then String.prefix "/ generated" line else false)
    in Hp.
  destruct (ascii_dec "/" c) as [<-|]; [|discriminate Hp]. discriminate Heq.
Qed.

(** What [stub_check] answers once the first line carries the marker. *)
Lemma stub_check_marked (file line : string) (rest : list string) :
  String.prefix "// generated" line = true →
  (length rest < line_threshold
   ∧ stub_shaped (join (take line_threshold rest))
   ∧ stub_check file (line :: rest) = Val true)
  ∨ ((line_threshold ≤ length rest
      ∨ ¬ stub_shaped (join (take line_threshold rest)))
     ∧ stub_check file (line :: rest)
       = Raise (ModifiedStubMarkedAsGeneratedError file)).
Proof.
  intros Hp. unfold stub_check. rewrite Hp. cbn [negb].
  destruct (Nat.eqb _ _) eqn:Hfull; cbn [orb].
  - apply captured_full in Hfull. right. split; [by left|done].
  - assert (length rest < line_threshold).
    { destruct (decide (line_threshold ≤ length rest)) as [Hge|]; [|lia].
      apply captured_full in Hge. congruence. }
    destruct (re_match _ _) eqn:Hre; cbn [negb].
    + apply generated_stub_re_spec in Hre. by left.
    + right. split; [|done]. right. intros Hs.
      apply generated_stub_re_spec in Hs. congruence.
Qed.

(** C3, as the code has it: once the first line carries the marker, the
    guard raises the modified-stub error exactly when at least five
    lines follow that line, or the lines captured after it do not start
    with the pattern; otherwise the file is pristine.  Five matching
    lines after the marker line are an error. *)
Theorem stub_guard_raises_iff (fs : gmap string string)
    (file text line : string) (rest : list string) :
  fs !! file = Some text → readlines text = line :: rest →
  String.prefix "// generated" line = true →
  (_is_generated_stub fs file = Raise (ModifiedStubMarkedAsGeneratedError file)
   ↔ line_threshold ≤ length rest
     ∨ ¬ stub_shaped (join (take line_threshold rest)))
  ∧ (_is_generated_stub fs file = Val true
     ↔ length rest < line_threshold
       ∧ stub_shaped (join (take line_threshold rest)))
  ∧ (_is_generated_stub fs file
       = Raise (ModifiedStubMarkedAsGeneratedError file)
     ∨ _is_generated_stub fs file = Val true).
Proof.
  intros Hfile Hlines Hp. unfold _is_generated_stub. rewrite Hfile, Hlines.
  destruct (stub_check_marked file line rest Hp)
    as [(Hlen & Hshape & ->)|(Hbad & ->)].
  - split; [|split; [|by right]].
    + split; [done|]. intros [?|?]; [lia|done].
    + done.
  - split; [|split; [|by left]].
    + done.
    + split; [done|]. intros [? ?]. destruct Hbad; [lia|done].
Qed.

(** C2, as the code has it: the first line alone is the marker
    preamble.  A file whose first line carries the marker and whose
    other lines are a pristine stub body is pristine; a second line
    that carries the marker is counted against the pattern and fails it. *)
Theorem marker_preamble_is_first_line (fs : gmap string string)
    (file text line : string) (rest : list string) :
  fs !! file = Some text → readlines text = line :: rest →
  String.prefix "// generated" line = true →
  (length rest < line_threshold → stub_shaped (join rest) →
   _is_generated_stub fs file = Val true)
  ∧ (∀ line2 rest', rest = line2 :: rest' →
       String.prefix "// generated" line2 = true →
       _is_generated_stub fs file
       = Raise (ModifiedStubMarkedAsGeneratedError file)).
Proof.
  intros Hfile Hlines Hp. unfold _is_generated_stub. rewrite Hfile, Hlines.
  destruct (stub_check_marked file line rest Hp)
    as [(Hlen & Hshape & ->)|(Hbad & ->)].
  - split; [done|]. intros line2 rest' -> Hp2. exfalso.
    revert Hshape. unfold line_threshold. cbn [take join fold_right].
    by apply marker_not_shaped.
  - split; [|done]. intros Hlen Hshape. exfalso.
    rewrite take_ge in Hbad by lia. destruct Hbad; [lia|done].
Qed.

(** C2, as stated, fails: a second marker line before a pristine body
    is an error, not a longer preamble. *)
Lemma second_marker_line_rejected :
  readlines two_marker_stub
  = [marker_line; marker_line] ++ readlines stub_body
  ∧ Forall (fun l => String.prefix "// generated" l = true)
           [marker_line; marker_line]
  ∧ _is_generated_stub {[ "Leaf.qll" := pristine_stub ]} "Leaf.qll" = Val true
  ∧ _is_generated_stub {[ "Leaf.qll" := two_marker_stub ]} "Leaf.qll"
    = Raise (ModifiedStubMarkedAsGeneratedError "Leaf.qll").
Proof.
  split; [by vm_compute|]. split; [by repeat constructor|].
  split; by vm_compute.
Qed.

(** C3, as stated, fails: exactly five lines after the marker that
    match the pattern are an error. *)
Lemma five_matching_lines_rejected :
  (∃ rest, readlines five_line_stub = marker_line :: rest
           ∧ length rest = 5
           ∧ re_match _generated_stub_re (join rest) = true)
  ∧ String.prefix "// generated" marker_line = true
  ∧ _is_generated_stub {[ "Leaf.qll" := five_line_stub ]} "Leaf.qll"
    = Raise (ModifiedStubMarkedAsGeneratedError "Leaf.qll").
Proof.
  split; [|split; by vm_compute].
  eexists. split; [by vm_compute|]. split; by vm_compute.
Qed.
End StubGuardFacts.

(** ** Hierarchy analyzer *)

Lemma anyM_spec {A} (f : A → result bool) (P : A → Prop) (l : list A) :
  (∀ x, x ∈ l → ∃ b, f x = Val b ∧ (b = true ↔ P x)) →
  ∃ b, anyM f l = Val b ∧ (b = true ↔ ∃ x, x ∈ l ∧ P x).
Proof.
  induction l as [|x l IH]; intros Hf; cbn.
  - exists false. split; [done|]. split; [done|].
    intros (x & Hx & _). by apply elem_of_nil in Hx.
  - destruct (Hf x) as (b & -> & Hb); [left|]. cbn. destruct b.
    + exists true. split; [done|]. split; [|done].
      intros _. exists x. split; [left|by apply Hb].
    + destruct IH as (b' & -> & Hb').
      { intros y Hy. apply Hf. by right. }
      exists b'. split; [done|]. rewrite Hb'. split.
      * intros (y & Hy & HP). exists y. split; [by right|done].
      * intros (y & Hy & HP). apply elem_of_cons in Hy as [->|Hy].
        -- apply Hb in HP. discriminate.
        -- by exists y.
Qed.

Lemma anyM_true {A} (f : A → result bool) (l : list A) :
  anyM f l = Val true → ∃ x, x ∈ l ∧ f x = Val true.
Proof.
  induction l as [|x l IH]; cbn; [done|].
  destruct (f x) as [[]|] eqn:Hx; cbn; intros H; try done.
  - exists x. split; [left|done].
  - destruct (IH H) as (y & Hy & Hfy). exists y. split; [by right|done].
Qed.

(** Whatever the fuel and the graph, a positive answer of the recursion
    is backed by the declarative predicate. *)
Lemma under_collapsed_sound (lookup : gmap string ql.Class) (fuel : nat) :
  ∀ c, _is_under_qltest_collapsed_hierachy fuel c lookup = Val true →
       UnderCollapsed lookup c.
Proof.
  induction fuel as [|fuel IH]; intros c; cbn; [done|].
  destruct (ql.Class.qltest_uncollapse_hierarchy c) eqn:Hun; [done|].
  intros H. apply anyM_true in H as (b & Hb & H).
  unfold getitem in H. destruct (lookup !! b) as [cb|] eqn:Hcb; [|done].
  cbn in H. unfold in_collapsed_with in H.
  destruct (ql.Class.qltest_collapse_hierarchy cb) eqn:Hcol.
  - by eapply under_pragma.
  - eapply under_under; eauto.
Qed.

Lemma in_collapsed_sound (lookup : gmap string ql.Class) (fuel : nat) c :
  _is_in_qltest_collapsed_hierachy fuel c lookup = Val true →
  Collapsed lookup c.
Proof.
  unfold _is_in_qltest_collapsed_hierachy, in_collapsed_with, Collapsed.
  destruct (ql.Class.qltest_collapse_hierarchy c); [by left|].
  intros H. right. by eapply under_collapsed_sound.
Qed.

Lemma unbroken_under (lookup : gmap string ql.Class) d a :
  DerivesUnbroken lookup d a → Collapsed lookup a → UnderCollapsed lookup d.
Proof.
  induction 1 as [d b cb Hun Hb Hcb|d b cb a Hun Hb Hcb _ IH]; intros Ha.
  - destruct Ha as [Ha|Ha]; [by eapply under_pragma|by eapply under_under].
  - eapply under_under; eauto.
Qed.

(** Under a collapsed hierarchy: some chain of bases, free of overrides
    from the class up to the last base excluded, ends in a class marked
    collapse. *)
Lemma under_collapsed_chain (lookup : gmap string ql.Class) (c : ql.Class) :
  UnderCollapsed lookup c
  ↔ ∃ a, DerivesUnbroken lookup c a
         ∧ ql.Class.qltest_collapse_hierarchy a = true.
Proof.
  split.
  - induction 1 as [c b cb Hun Hb Hcb Hcol|c b cb Hun Hb Hcb _ (a & Ha & Hcol)].
    + exists cb. split; [by eapply unbroken_direct|done].
    + exists a. split; [by eapply unbroken_trans|done].
  - intros (a & Ha & Hcol). eapply unbroken_under; [exact Ha|by left].
Qed.

Section HierarchyFacts.
Variable lookup : gmap string ql.Class.
Variable depth : string → nat.
Hypothesis Hgraph : closed_acyclic lookup depth.

(** With fuel beyond the depth of the class, the recursion comes back
    with the answer of the declarative predicate. *)
Lemma under_collapsed_refines (fuel : nat) :
  ∀ n c, lookup !! n = Some c → depth n < fuel →
    ∃ b, _is_under_qltest_collapsed_hierachy fuel c lookup = Val b
         ∧ (b = true ↔ UnderCollapsed lookup c).
Proof.
  induction fuel as [|fuel IH]; intros n c Hn Hfuel; [lia|]. cbn.
  destruct (ql.Class.qltest_uncollapse_hierarchy c) eqn:Hun.
  { exists false. split; [done|]. split; [done|].
    inversion 1; congruence. }
  destruct (anyM_spec
    (fun b => let* base := getitem lookup b in
              in_collapsed_with
                (fun c0 => _is_under_qltest_collapsed_hierachy fuel c0 lookup)
                base)
    (fun b => ∃ cb, lookup !! b = Some cb ∧ Collapsed lookup cb)
    (ql.Class.bases c)) as (r & Hr & Hiff).
  { intros b Hb. destruct (Hgraph n c b Hn Hb) as (cb & Hcb & Hd).
    unfold getitem. rewrite Hcb. cbn. unfold in_collapsed_with, Collapsed.
    destruct (ql.Class.qltest_collapse_hierarchy cb) eqn:Hcol.
    - exists true. split; [done|]. split; [|done]. intros _. exists cb. auto.
    - destruct (IH b cb Hcb) as (r & -> & Hr); [lia|].
      exists r. split; [done|]. rewrite Hr. split.
      + intros H. exists cb. auto.
      + intros (cb' & Hcb' & [H|H]); [congruence|].
        by replace cb with cb' by congruence. }
  exists r. split; [exact Hr|]. rewrite Hiff. split.
  - intros (b & Hb & cb & Hcb & [Hcol|Hunder]).
    + by eapply under_pragma.
    + by eapply under_under.
  - inversion 1 as [c0 b cb _ Hb Hcb Hcol|c0 b cb _ Hb Hcb Hunder]; subst;
      exists b; (split; [done|]); exists cb; (split; [done|]);
      [by left|by right].
Qed.

(** C4, as the code has it: a class of the table is skipped for test
    generation exactly when it carries the skip pragma, or is neither
    final nor marked collapse, or is under a collapsed hierarchy; and
    it is under a collapsed hierarchy exactly when some chain of
    bases, on which neither the class nor any class before the last
    carries the uncollapse override, reaches a class marked collapse. *)
Theorem should_skip_qltest_iff (fuel : nat) (n : string) (c : ql.Class) :
  lookup !! n = Some c → depth n < fuel →
  (∃ b, _should_skip_qltest fuel c lookup = Val b
        ∧ (b = true ↔
             ql.Class.qltest_skip c = true
             ∨ (ql.Class.final c = false
                ∧ ql.Class.qltest_collapse_hierarchy c = false)
             ∨ UnderCollapsed lookup c))
  ∧ (UnderCollapsed lookup c
     ↔ ∃ a, DerivesUnbroken lookup c a
            ∧ ql.Class.qltest_collapse_hierarchy a = true).
Proof.
  intros Hn Hfuel. split; [|apply under_collapsed_chain].
  unfold _should_skip_qltest.
  destruct (ql.Class.qltest_skip c) eqn:Hskip.
  { exists true. split; [done|]. split; [by left|done]. }
  destruct (ql.Class.final c) eqn:Hfinal; cbn.
  - destruct (under_collapsed_refines fuel n c Hn Hfuel) as (b & -> & Hb).
    exists b. split; [done|]. rewrite Hb. split; [by auto|].
    intros [H|[[H _]|H]]; done.
  - destruct (ql.Class.qltest_collapse_hierarchy c) eqn:Hcol; cbn.
    + destruct (under_collapsed_refines fuel n c Hn Hfuel) as (b & -> & Hb).
      exists b. split; [done|]. rewrite Hb. split; [by auto|].
      intros [H|[[_ H]|H]]; done.
    + exists true. split; [done|]. split; [by auto|done].
Qed.

(** C5, as the code has it: a class without the uncollapse override
    that derives from a collapsed class, directly or through classes
    that carry no override either, is under a collapsed hierarchy; a
    class with the override is not, whatever its ancestors. *)
Theorem collapse_inherited_unless_overridden (fuel : nat) (n : string)
    (d : ql.Class) :
  lookup !! n = Some d → depth n < fuel →
  (∀ b fuel', DerivesUnbroken lookup d b →
     _is_in_qltest_collapsed_hierachy fuel' b lookup = Val true →
     _is_under_qltest_collapsed_hierachy fuel d lookup = Val true)
  ∧ (ql.Class.qltest_uncollapse_hierarchy d = true →
     _is_under_qltest_collapsed_hierachy fuel d lookup = Val false).
Proof.
  intros Hn Hfuel. split.
  - intros b fuel' Hchain Hb.
    destruct (under_collapsed_refines fuel n d Hn Hfuel) as (r & -> & Hr).
    f_equal. apply Hr. eapply unbroken_under; [exact Hchain|].
    by eapply in_collapsed_sound.
  - intros Hun. destruct fuel as [|fuel]; [lia|]. cbn. by rewrite Hun.
Qed.
End HierarchyFacts.

(** ** Property flattening *)

Lemma mapM_spec {A B} (f : A → result B) (P : A → B → Prop) (l : list A) :
  (∀ x, x ∈ l → ∃ y, f x = Val y ∧ P x y) →
  ∃ ys, mapM f l = Val ys ∧ Forall2 P l ys.
Proof.
  induction l as [|x l IH]; intros Hf; cbn.
  - by exists [].
  - destruct (Hf x) as (y & -> & Hy); [left|].
    destruct IH as (ys & -> & Hys); [intros z Hz; apply Hf; by right|].
    exists (y :: ys). split; [done|]. by constructor.
Qed.

Lemma elem_of_concat {A} (x : A) (ls : list (list A)) :
  x ∈ concat ls ↔ ∃ l, x ∈ l ∧ l ∈ ls.
Proof.
  rewrite list_elem_of_In, in_concat. split.
  - intros (l & Hl & Hx). exists l. by rewrite !list_elem_of_In.
  - intros (l & Hx & Hl). exists l. by rewrite <- !list_elem_of_In.
Qed.

(** The loop yields no identity twice, nothing that is skipped or
    already seen, and everything else. *)
Lemma properties_to_be_tested_spec
    (items : list (ql.Class * object ql.Property)) :
  ∀ seen : gset nat,
    NoDup (map oid (properties_to_be_tested seen items))
    ∧ (∀ q, q ∈ properties_to_be_tested seen items →
         (oid q ∉ seen) ∧ ql.Property.qltest_skip (deref q) = false
         ∧ ∃ o, (o, q) ∈ items ∧ ql.Class.qltest_skip o = false)
    ∧ (∀ o p, (o, p) ∈ items → ql.Class.qltest_skip o = false →
         ql.Property.qltest_skip (deref p) = false → oid p ∉ seen →
         oid p ∈ map oid (properties_to_be_tested seen items)).
Proof.
  induction items as [|[c p] items IH]; intros seen; cbn.
  - split; [constructor|]. split.
    + intros q Hq. by apply elem_of_nil in Hq.
    + intros o q Hq. by apply elem_of_nil in Hq.
  - destruct (ql.Class.qltest_skip c) eqn:Hc; cbn.
    { destruct (IH seen) as (Hnd & Hin & Hall). split; [done|]. split.
      - intros q Hq. destruct (Hin q Hq) as (? & ? & o & Ho & ?).
        repeat split; try done. exists o. split; [by right|done].
      - intros o q Hq Ho Hsk Hseen. apply elem_of_cons in Hq as [Heq|Hq]; [injection Heq as -> ->|].
        { congruence. }
        by eapply Hall. }
    destruct (ql.Property.qltest_skip (deref p)) eqn:Hp; cbn.
    { destruct (IH seen) as (Hnd & Hin & Hall). split; [done|]. split.
      - intros q Hq. destruct (Hin q Hq) as (? & ? & o & Ho & ?).
        repeat split; try done. exists o. split; [by right|done].
      - intros o q Hq Ho Hsk Hseen. apply elem_of_cons in Hq as [Heq|Hq]; [injection Heq as -> ->|].
        { congruence. }
        by eapply Hall. }
    case_bool_decide as Hseen; cbn.
    { destruct (IH seen) as (Hnd & Hin & Hall). split; [done|]. split.
      - intros q Hq. destruct (Hin q Hq) as (? & ? & o & Ho & ?).
        repeat split; try done. exists o. split; [by right|done].
      - intros o q Hq Ho Hsk Hns. apply elem_of_cons in Hq as [Heq|Hq]; [injection Heq as -> ->|].
        { done. }
        by eapply Hall. }
    destruct (IH ({[oid p]} ∪ seen)) as (Hnd & Hin & Hall). split; [|split].
    + constructor; [|done]. intros Hdup.
      apply list_elem_of_In, in_map_iff in Hdup as (q & Hid & Hq).
      apply list_elem_of_In in Hq.
      destruct (Hin q Hq) as (Hns & _). apply Hns. rewrite Hid.
      by apply elem_of_union_l, elem_of_singleton.
    + intros q Hq. apply elem_of_cons in Hq as [->|Hq].
      * repeat split; try done. exists c. split; [left|done].
      * destruct (Hin q Hq) as (Hns & ? & o & Ho & ?).
        split; [intros H'; by apply Hns, elem_of_union_r|].
        split; [done|]. exists o. split; [by right|done].
    + intros o q Hq Ho Hsk Hns. destruct (decide (oid q = oid p)) as [Heq|Hne].
      * rewrite Heq. left.
      * right. apply elem_of_cons in Hq as [Heq|Hq]; [by injection Heq as -> ->|].
        eapply Hall; eauto.
        rewrite elem_of_union, elem_of_singleton. tauto.
Qed.

Lemma once_by_identity {A} (f : A → nat) (l : list A) (x : A) :
  NoDup (map f l) → f x ∈ map f l →
  length (filter (fun q => f q = f x) l) = 1.
Proof.
  induction l as [|y l IH]; intros Hnd Hin; cbn [map] in Hnd, Hin.
  - by apply elem_of_nil in Hin.
  - apply NoDup_cons in Hnd as [Hy Hnd]. rewrite filter_cons.
    destruct (decide (f y = f x)) as [Heq|Hne].
    + cbn [length]. f_equal. rewrite Heq in Hy.
      destruct (filter (fun q => f q = f x) l) as [|z zs] eqn:Hz; [done|].
      exfalso. apply Hy.
      assert (Hzin : z ∈ filter (fun q => f q = f x) l) by (rewrite Hz; left).
      apply list_elem_of_filter in Hzin as [Hfz Hzin]. rewrite <- Hfz.
      apply list_elem_of_In in Hzin. by apply list_elem_of_In, in_map.
    + apply IH; [done|]. apply elem_of_cons in Hin as [Heq|Hin]; [|done].
      congruence.
Qed.

Section FlattenFacts.
Variable qllib : QlLib.
Variable lookup : gmap string ql.Class.
Variable depth : string → nat.
Hypothesis Hgraph : closed_acyclic lookup depth.

(** The traversal comes back, with the properties of the class and of
    all its ancestors, each with its owner. *)
Lemma get_all_properties_spec (fuel : nat) :
  ∀ n c, lookup !! n = Some c → depth n < fuel →
    ∃ items, _get_all_properties fuel c lookup = Val items
      ∧ ∀ o p, (o, p) ∈ items ↔
               p ∈ ql.Class.properties o ∧ (o = c ∨ Derives lookup c o).
Proof.
  induction fuel as [|fuel IH]; intros n c Hn Hfuel; [lia|]. cbn.
  destruct (mapM_spec
    (fun b => let* base := getitem lookup b in
              _get_all_properties fuel base lookup)
    (fun b sub => ∃ cb, lookup !! b = Some cb
       ∧ ∀ o p, (o, p) ∈ sub ↔
                p ∈ ql.Class.properties o ∧ (o = cb ∨ Derives lookup cb o))
    (ql.Class.bases c)) as (inherited & -> & Hinh).
  { intros b Hb. destruct (Hgraph n c b Hn Hb) as (cb & Hcb & Hd).
    unfold getitem. rewrite Hcb. cbn.
    destruct (IH b cb Hcb) as (sub & -> & Hsub); [lia|].
    exists sub. split; [done|]. by exists cb. }
  cbn. eexists. split; [done|]. intros o p.
  rewrite elem_of_app, elem_of_concat, list_elem_of_In, in_map_iff.
  split.
  - intros [(sub & Hp & Hsub)|(q & [= <- <-] & Hq)].
    + apply list_elem_of_lookup in Hsub as (i & Hi).
      destruct (Forall2_lookup_r _ _ _ _ _ Hinh Hi) as (b & Hb & cb & Hcb & Hiff).
      apply Hiff in Hp as (Hp & Ho). split; [done|]. right.
      apply list_elem_of_lookup_2 in Hb.
      destruct Ho as [->|Ho]; [by eapply derives_direct|by eapply derives_trans].
    + split; [by apply list_elem_of_In|by left].
  - intros [Hp [->|Hd]].
    + right. exists p. split; [done|]. by apply list_elem_of_In.
    + left.
      assert (∃ b cb, b ∈ ql.Class.bases c ∧ lookup !! b = Some cb
                      ∧ (o = cb ∨ Derives lookup cb o)) as (b & cb & Hb & Hcb & Ho).
      { inversion Hd; subst; eauto 6. }
      apply list_elem_of_lookup in Hb as (i & Hi).
      destruct (Forall2_lookup_l _ _ _ _ _ Hinh Hi) as (sub & Hsub & cb' & Hcb' & Hiff).
      exists sub. split; [|by eapply list_elem_of_lookup_2].
      apply Hiff. split; [done|]. by replace cb' with cb by congruence.
Qed.

(** C6: the flattened test properties of a class hold no property
    object twice, so a property inherited along several paths (the
    diamond) occurs exactly once; every property in it is free of the
    skip mark and comes from an owner free of it; and, a property
    object belonging to one class only, nothing owned by a skipped
    class is in it. *)
Theorem flattened_properties_distinct (fuel : nat) (n : string) (c : ql.Class) :
  lookup !! n = Some c → depth n < fuel →
  ∃ items tested,
    _get_all_properties fuel c lookup = Val items
    ∧ tested = properties_to_be_tested ∅ items
    ∧ _get_all_properties_to_be_tested qllib fuel c lookup
      = Val (map (fun p => property_for_test qllib (deref p)) tested)
    ∧ NoDup (map oid tested)
    ∧ (∀ q, q ∈ tested →
         ql.Property.qltest_skip (deref q) = false
         ∧ ∃ o, q ∈ ql.Class.properties o ∧ (o = c ∨ Derives lookup c o)
                ∧ ql.Class.qltest_skip o = false)
    ∧ (∀ a p, a = c ∨ Derives lookup c a → p ∈ ql.Class.properties a →
         ql.Class.qltest_skip a = false →
         ql.Property.qltest_skip (deref p) = false →
         length (filter (fun q => oid q = oid p) tested) = 1)
    ∧ ((∀ o1 o2 p1 p2, (o1, p1) ∈ items → (o2, p2) ∈ items →
          oid p1 = oid p2 → o1 = o2) →
       ∀ a p, a = c ∨ Derives lookup c a → p ∈ ql.Class.properties a →
         ql.Class.qltest_skip a = true → oid p ∉ map oid tested).
Proof.
  intros Hn Hfuel.
  destruct (get_all_properties_spec fuel n c Hn Hfuel) as (items & Hitems & Hiff).
  destruct (properties_to_be_tested_spec items ∅) as (Hnd & Hin & Hall).
  exists items, (properties_to_be_tested ∅ items).
  split; [done|]. split; [done|]. split.
  { unfold _get_all_properties_to_be_tested. by rewrite Hitems. }
  split; [done|]. split; [|split].
  - intros q Hq. destruct (Hin q Hq) as (_ & Hskip & o & Ho & Hoskip).
    split; [done|]. exists o. apply Hiff in Ho as [Hp Ho]. done.
  - intros a p Ha Hp Haskip Hpskip. apply once_by_identity; [done|].
    eapply Hall; [|done|done|apply not_elem_of_empty].
    apply Hiff. split; [exact Hp|exact Ha].
  - intros Hown a p Ha Hp Haskip Hdup.
    apply list_elem_of_In, in_map_iff in Hdup as (q & Hid & Hq).
    apply list_elem_of_In in Hq.
    destruct (Hin q Hq) as (_ & _ & o & Ho & Hoskip).
    assert (Hap : (a, p) ∈ items) by (apply Hiff; done).
    rewrite (Hown o a q p Ho Hap Hid) in Hoskip. congruence.
Qed.
End FlattenFacts.

(** ** Generation driver *)

Lemma mapM_getitem_all {V} (d : gmap string V) (ks : list string) (vs : list V) :
  mapM (getitem d) ks = Val vs → ∀ k, k ∈ ks → is_Some (d !! k).
Proof.
  revert vs. induction ks as [|k0 ks IH]; intros vs H k Hk.
  - by apply elem_of_nil in Hk.
  - cbn in H. unfold getitem in H at 1.
    destruct (d !! k0) as [v|] eqn:Hk0; [|done]. cbn in H.
    destruct (mapM (getitem d) ks) as [vs'|] eqn:Hks; [|done].
    apply elem_of_cons in Hk as [->|Hk]; [by rewrite Hk0|by eapply IH].
Qed.

Lemma filterM_elem {A} (f : A → result bool) (l l' : list A) :
  filterM f l = Val l' → ∀ x, x ∈ l' → f x = Val true.
Proof.
  revert l'. induction l as [|y l IH]; intros l' H x Hx; cbn in H.
  - injection H as <-. by apply elem_of_nil in Hx.
  - destruct (f y) as [b|] eqn:Hy; [|done]. cbn in H.
    destruct (filterM f l) as [l0|] eqn:Hl; [|done]. cbn in H.
    injection H as <-. destruct b.
    + apply elem_of_cons in Hx as [->|Hx]; [done|by eapply IH].
    + by eapply IH.
Qed.

Lemma used_types_set_imports (c : ql.Class) (imps : list string) :
  get_classes_used_by (set_imports c imps) = get_classes_used_by c.
Proof. reflexivity. Qed.

Lemma set_imports_twice (c : ql.Class) (i j : list string) :
  set_imports (set_imports c i) j = set_imports c j.
Proof. reflexivity. Qed.

Section DriverFacts.
Variable pathlib : Pathlib.
Variable qllib : QlLib.
Variable render_text : renderable → string.
Variable opts : Opts.

#[local] Abbreviation resolve_imports := (resolve_imports pathlib qllib opts).
#[local] Abbreviation stub_to_write := (stub_to_write pathlib qllib opts).
#[local] Abbreviation generate_class :=
  (generate_class pathlib qllib render_text opts).
#[local] Abbreviation generate_classes :=
  (generate_classes pathlib qllib render_text opts).
#[local] Abbreviation build_imports := (build_imports pathlib qllib opts).
#[local] Abbreviation existing_outputs := (existing_outputs pathlib opts).
#[local] Abbreviation generate := (generate pathlib qllib render_text opts).

Lemma build_imports_keys (classes : list ql.Class) :
  ∀ imports imports' k,
    build_imports imports classes = Val imports' →
    is_Some (imports' !! k) →
    is_Some (imports !! k) ∨ ∃ c, c ∈ classes ∧ ql.Class.name c = k.
Proof.
  induction classes as [|c cs IH]; intros imports imports' k H Hk; cbn in H.
  - injection H as <-. by left.
  - destruct (get_import _ _ _) as [i|]; [|done]. cbn in H.
    destruct (IH _ _ k H Hk) as [Hin|(c' & Hc' & Hn)].
    + destruct (decide (ql.Class.name c = k)) as [Heq|Hne].
      * right. exists c. split; [left|done].
      * left. by rewrite lookup_insert_ne in Hin.
    + right. exists c'. split; [by right|done].
Qed.

(** A class whose references do not all resolve is not rendered. *)
Lemma resolve_imports_inv (imports : gmap string string) (c c' : ql.Class)
    (qll : string) :
  resolve_imports imports c = Val (qll, c') →
  ∃ rel used imps,
    with_suffix pathlib (path qllib c) ".qll" = Val rel
    ∧ qll = joinpath pathlib (ql_output opts) rel
    ∧ get_classes_used_by c = Val used
    ∧ mapM (getitem imports) used = Val imps
    ∧ c' = set_imports c imps.
Proof.
  unfold resolve_imports. intros H.
  destruct (with_suffix _ _ _) as [rel|] eqn:Hrel; [|done]. cbn in H.
  destruct (get_classes_used_by c) as [used|] eqn:Hused; [|done]. cbn in H.
  destruct (mapM _ used) as [imps|] eqn:Himps; [|done]. cbn in H.
  injection H as <- <-. exists rel, used, imps. repeat split; done.
Qed.

(** What one turn of the loop adds to the calls of the renderer. *)
Lemma generate_class_rendered (imports : gmap string string) (st : state)
    (c : ql.Class) (d : renderable) (o : string) :
  (d, o) ∈ rendered (generate_class imports st c).1 →
  (d, o) ∈ rendered st
  ∨ ∃ qll c', resolve_imports imports c = Val (qll, c')
      ∧ ((d = RClass c' ∧ o = qll)
         ∨ ∃ stub, d = RStub stub
             ∧ stub_to_write (files (render render_text st (RClass c') qll)) qll c'
               = Val (Some (stub, o))).
Proof.
  unfold generate_class.
  destruct (resolve_imports imports c) as [[qll c']|] eqn:Hres; [|by left].
  destruct (stub_to_write _ qll c') as [[[stub stub_file]|]|] eqn:Hstub;
    cbn [fst rendered render]; rewrite ?elem_of_app, ?list_elem_of_singleton.
  - intros [[H|H]|H]; [by left|right..]; exists qll, c'; (split; [done|]).
    + left. by injection H as -> ->.
    + right. injection H as -> ->. by exists stub.
  - intros [H|H]; [by left|right]. exists qll, c'. split; [done|].
    left. by injection H as -> ->.
  - intros [H|H]; [by left|right]. exists qll, c'. split; [done|].
    left. by injection H as -> ->.
Qed.

Lemma generate_classes_rendered (imports : gmap string string)
    (classes : list ql.Class) :
  ∀ st d o,
    (d, o) ∈ rendered (generate_classes imports st classes).1 →
    (d, o) ∈ rendered st
    ∨ ∃ c qll c', c ∈ classes ∧ resolve_imports imports c = Val (qll, c')
        ∧ ((d = RClass c' ∧ o = qll)
           ∨ ∃ stub fs, d = RStub stub
               ∧ stub_to_write fs qll c' = Val (Some (stub, o))).
Proof.
  induction classes as [|c cs IH]; intros st d o; cbn [generate_classes].
  - by left.
  - destruct (generate_class imports st c) as [st' [[]|e]] eqn:Hc; cbn [fst].
    + intros H. destruct (IH st' d o H) as [Hst'|(c0 & qll & c' & Hin & Hr)].
      * replace st' with (generate_class imports st c).1 in Hst'
          by (by rewrite Hc).
        apply generate_class_rendered in Hst'
          as [?|(qll & c' & Hres & Hev)]; [by left|right].
        exists c, qll, c'. split; [left|]. split; [done|].
        destruct Hev as [?|(stub & ? & ?)]; [by left|right; eauto].
      * right. exists c0, qll, c'. split; [by right|done].
    + intros H.
      replace st' with (generate_class imports st c).1 in H
        by (by rewrite Hc).
      apply generate_class_rendered in H
        as [?|(qll & c' & Hres & Hev)]; [by left|right].
      exists c, qll, c'. split; [left|]. split; [done|].
      destruct Hev as [?|(stub & ? & ?)]; [by left|right; eauto].
Qed.

Lemma generate_classes_aborts (imports : gmap string string)
    (classes : list ql.Class) (c : ql.Class) (e : exn) :
  c ∈ classes → resolve_imports imports c = Raise e →
  ∀ st, ∃ e', (generate_classes imports st classes).2 = Raise e'.
Proof.
  intros Hin Hres. induction classes as [|c0 cs IH]; intros st.
  - by apply elem_of_nil in Hin.
  - cbn [generate_classes].
    destruct (generate_class imports st c0) as [st' [[]|e0]] eqn:Hc0.
    + apply elem_of_cons in Hin as [->|Hin]; [|by apply IH].
      unfold generate_class in Hc0. by rewrite Hres in Hc0.
    + by exists e0.
Qed.

(** C9: when a class refers to a name that no class of the schema
    bears, the run ends in an error, and the class is never handed to
    the renderer, with whatever import list. *)
Theorem broken_reference_aborts (fs : gmap string string)
    (classes : list ql.Class) (c : ql.Class) (used : list string) (t : string) :
  c ∈ classes → get_classes_used_by c = Val used → t ∈ used →
  (∀ c', c' ∈ classes → ql.Class.name c' ≠ t) →
  (∃ e, (generate fs classes).2 = Raise e)
  ∧ ∀ imps dest,
      (RClass (set_imports c imps), dest) ∉ rendered (generate fs classes).1.
Proof.
  intros Hc Hused Ht Hname. unfold generate.
  destruct (existing_outputs fs) as [existing|e0].
  2:{ split; [by exists e0|]. intros imps dest H. by apply elem_of_nil in H. }
  destruct (build_imports ∅ classes) as [imports|e0] eqn:Himp.
  2:{ split; [by exists e0|]. intros imps dest H. by apply elem_of_nil in H. }
  assert (Hmiss : imports !! t = None).
  { destruct (imports !! t) as [i|] eqn:Hi; [|done]. exfalso.
    destruct (build_imports_keys classes ∅ imports t Himp) as [H|(c' & Hc' & Hn)].
    - by rewrite Hi.
    - rewrite lookup_empty in H. by destruct H.
    - by apply (Hname c'). }
  assert (Hbroken : ∀ c0 qll c', get_classes_used_by c0 = Val used →
            resolve_imports imports c0 ≠ Val (qll, c')).
  { intros c0 qll c' Hu Hres.
    apply resolve_imports_inv in Hres as (rel & used' & imps & _ & _ & Hu' & Hm & _).
    rewrite Hu in Hu'. injection Hu' as <-.
    destruct (mapM_getitem_all _ _ _ Hm t Ht) as [i Hi]. congruence. }
  assert (Hres : ∃ e, resolve_imports imports c = Raise e).
  { destruct (resolve_imports imports c) as [[qll c']|e] eqn:Hres; [|by exists e].
    by destruct (Hbroken c qll c' Hused). }
  destruct Hres as (e & Hres). set (st0 := {| files := fs; rendered := [] |}).
  destruct (generate_classes_aborts imports classes c e Hc Hres st0) as (e' & He').
  pose proof (generate_classes_rendered imports classes st0) as Hrend.
  destruct (generate_classes imports st0 classes) as [st [[]|e1]]; cbn in He';
    [done|]. cbn [fst snd]. split; [by exists e1|].
  intros imps dest Hev.
  destruct (Hrend _ _ Hev) as [H|(c0 & qll & c' & _ & Hr & [[Heq _]|(stub & fs' & Heq & _)])].
  - by apply elem_of_nil in H.
  - injection Heq as Heq.
    pose proof Hr as Hr'.
    apply resolve_imports_inv in Hr' as (_ & _ & imps0 & _ & _ & _ & _ & ->).
    apply (Hbroken c0 qll (set_imports c0 imps0)); [|done].
    rewrite <- (used_types_set_imports c0 imps0), <- Heq.
    by rewrite used_types_set_imports.
  - discriminate Heq.
Qed.

Lemma render_elsewhere (q : string) (st : state) (d : renderable) (o : string) :
  o ≠ q → untouched_empty q st → untouched_empty q (render render_text st d o).
Proof.
  intros Hne [Hfile Hrend]. split; cbn.
  - by rewrite lookup_insert_ne.
  - intros d' H. apply elem_of_app in H as [H|H]; [by apply (Hrend d')|].
    apply list_elem_of_singleton in H. congruence.
Qed.

Lemma empty_file_not_generated (fs : gmap string string) (q : string) :
  fs !! q = Some "" → _is_generated_stub fs q = Val false.
Proof. intros H. unfold _is_generated_stub. by rewrite H. Qed.

Lemma stub_to_write_not_empty (fs : gmap string string) (qll : string)
    (c : ql.Class) (stub : ql.Stub) (stub_file q : string) :
  fs !! q = Some "" →
  stub_to_write fs qll c = Val (Some (stub, stub_file)) → stub_file ≠ q.
Proof.
  intros Hq H ->. unfold stub_to_write in H.
  destruct (with_suffix _ _ _) as [rel|]; [|done]. cbn in H.
  destruct (bool_decide _) eqn:Hfile; cbn in H.
  - destruct (_is_generated_stub fs _) as [[]|] eqn:Hgen; cbn in H; try done.
    destruct (get_import _ _ _) as [bi|]; [|done]. cbn in H.
    injection H as _ Hsf. rewrite Hsf in Hgen.
    by rewrite (empty_file_not_generated fs q Hq) in Hgen.
  - destruct (get_import _ _ _) as [bi|]; [|done]. cbn in H.
    injection H as _ Hsf. rewrite Hsf in Hfile.
    apply bool_decide_eq_false in Hfile. apply Hfile. by rewrite Hq.
Qed.

Lemma generate_class_untouched (imports : gmap string string) (q : string)
    (st : state) (c : ql.Class) :
  (∀ rel, with_suffix pathlib (path qllib c) ".qll" = Val rel →
          joinpath pathlib (ql_output opts) rel ≠ q) →
  untouched_empty q st → untouched_empty q (generate_class imports st c).1.
Proof.
  intros Hqll Hst. unfold generate_class.
  destruct (resolve_imports imports c) as [[qll c']|] eqn:Hres; [|done].
  apply resolve_imports_inv in Hres as (rel & _ & _ & Hrel & -> & _).
  assert (Hst1 : untouched_empty q
            (render render_text st (RClass c')
               (joinpath pathlib (ql_output opts) rel)))
    by (apply render_elsewhere; [by apply Hqll|done]).
  destruct (stub_to_write _ _ c') as [[[stub stub_file]|]|] eqn:Hstub;
    cbn [fst]; [|done..].
  apply render_elsewhere; [|done].
  eapply stub_to_write_not_empty; [|exact Hstub]. apply Hst1.
Qed.

Lemma generate_classes_untouched (imports : gmap string string) (q : string)
    (classes : list ql.Class) :
  (∀ c rel, c ∈ classes →
     with_suffix pathlib (path qllib c) ".qll" = Val rel →
     joinpath pathlib (ql_output opts) rel ≠ q) →
  ∀ st, untouched_empty q st →
        untouched_empty q (generate_classes imports st classes).1.
Proof.
  induction classes as [|c cs IH]; intros Hqll st Hst; [done|].
  cbn [generate_classes].
  pose proof (generate_class_untouched imports q st c
                (fun rel => Hqll c rel ltac:(left)) Hst) as Hc.
  destruct (generate_class imports st c) as [st' [[]|e]]; cbn [fst] in *.
  - apply IH; [|done]. intros c' rel Hc'. apply Hqll. by right.
  - done.
Qed.

(** C10: an existing stub file with no line in it is taken for a file
    of the user: the guard answers false and raises nothing, the file
    is not counted among the generated files found, and the run
    neither writes it nor changes it.  The file is a stub file only:
    no walk of the other directories finds it and no class has it as
    its definition file. *)
Theorem empty_stub_left_alone (fs : gmap string string)
    (classes : list ql.Class) (q : string) :
  fs !! q = Some "" →
  q ∉ rglob pathlib fs (ql_output opts) "*.qll" →
  q ∉ rglob pathlib fs (ql_test_output opts) "*.ql" →
  q ∉ rglob pathlib fs (ql_test_output opts) "MISSING_SOURCE.txt" →
  (∀ c rel, c ∈ classes →
     with_suffix pathlib (path qllib c) ".qll" = Val rel →
     joinpath pathlib (ql_output opts) rel ≠ q) →
  _is_generated_stub fs q = Val false
  ∧ (∀ existing, existing_outputs fs = Val existing → q ∉ existing)
  ∧ files (generate fs classes).1 !! q = Some ""
  ∧ (∀ d, (d, q) ∉ rendered (generate fs classes).1).
Proof.
  intros Hq Hout Htest Hmissing Hqll.
  pose proof (empty_file_not_generated fs q Hq) as Hguard.
  split; [done|]. split.
  - intros existing Hex. unfold existing_outputs in Hex.
    destruct (filterM _ _) as [stubs|] eqn:Hstubs; [|done]. cbn in Hex.
    injection Hex as <-. rewrite !elem_of_union, !elem_of_list_to_set.
    intros [[[H|H]|H]|H]; try done.
    rewrite (filterM_elem _ _ _ Hstubs q H) in Hguard. discriminate.
  - assert (Hst0 : untouched_empty q {| files := fs; rendered := [] |}).
    { split; [done|]. intros d H. by apply elem_of_nil in H. }
    assert (untouched_empty q (generate fs classes).1) as [? ?]; [|done].
    unfold generate.
    destruct (existing_outputs fs) as [existing|]; [|done].
    destruct (build_imports ∅ classes) as [imports|]; [|done].
    pose proof (generate_classes_untouched imports q classes Hqll _ Hst0) as H.
    by destruct (generate_classes imports _ classes) as [st [[]|e]].
Qed.
End DriverFacts.

(** ** The properties on the samples *)

Lemma closed_acyclic_checked (lookup : gmap string ql.Class)
    (depth : string → nat) :
  map_Forall (fun n c =>
                Forall (fun b => is_Some (lookup !! b) ∧ depth b < depth n)
                       (ql.Class.bases c))
             lookup →
  closed_acyclic lookup depth.
Proof.
  intros Hall n c b Hn Hb. specialize (Hall n c Hn).
  rewrite Forall_forall in Hall. destruct (Hall b Hb) as [[cb Hcb] Hd].
  by exists cb.
Qed.

Ltac checked := apply (bool_decide_unpack _); vm_compute; exact I.

Lemma plain_closed_acyclic : closed_acyclic samples.plain samples.depth.
Proof. apply closed_acyclic_checked. checked. Qed.

Lemma collapsed_closed_acyclic : closed_acyclic samples.collapsed samples.depth.
Proof. apply closed_acyclic_checked. checked. Qed.

Lemma overridden_closed_acyclic : closed_acyclic samples.overridden samples.depth.
Proof. apply closed_acyclic_checked. checked. Qed.

Lemma diamond_closed_acyclic : closed_acyclic samples.diamond samples.depth.
Proof. apply closed_acyclic_checked. checked. Qed.

Lemma single_property_layout_witness :
  ∃ qp before after,
    get_ql_property samples.inflection samples.leaf_schema samples.name_prop
    = Some qp
    ∧ ql.Property.tablename qp = "leafs"
    ∧ filter single (schema.Class.properties samples.leaf_schema)
      = before ++ samples.name_prop :: after
    ∧ ql.Property.tableparams qp
      = "this" :: replicate (length before) "_"
               ++ "result" :: replicate (length after) "_"
    ∧ length (ql.Property.tableparams qp)
      = 1 + length (filter single (schema.Class.properties samples.leaf_schema))
    ∧ count_occ string_dec (ql.Property.tableparams qp) "result" = 1.
Proof.
  apply (single_property_layout samples.inflection samples.leaf_schema
           samples.name_prop).
  - left.
  - checked.
  - reflexivity.
Defined.

(** The tables of [Leaf]: its single properties share the table of the
    class, its repeated property has one of its own. *)
Example leaf_tables :
  map (fun p =>
         option_map
           (fun q => (ql.Property.tablename q, ql.Property.tableparams q))
           (get_ql_property samples.inflection samples.leaf_schema p))
      (schema.Class.properties samples.leaf_schema)
  = [Some ("leafs", ["this"; "result"; "_"]);
     Some ("leaf_items", ["this"; "index"; "result"]);
     Some ("leafs", ["this"; "_"; "result"])].
Proof. reflexivity. Qed.

Lemma mapper_deterministic_witness :
  map (get_ql_property samples.inflection samples.leaf_schema)
      (schema.Class.properties samples.leaf_schema)
  = map (get_ql_property samples.inflection samples.leaf_schema_again)
        (schema.Class.properties samples.leaf_schema_again)
  ∧ ∀ p q, p ∈ schema.Class.properties samples.leaf_schema →
      q ∈ schema.Class.properties samples.leaf_schema →
      oid p ≠ oid q → single p → single q →
      ∃ qp qq, get_ql_property samples.inflection samples.leaf_schema p = Some qp
        ∧ get_ql_property samples.inflection samples.leaf_schema q = Some qq
        ∧ ql.Property.tablename qp = ql.Property.tablename qq
        ∧ ql.Property.tableparams qp ≠ ql.Property.tableparams qq.
Proof.
  apply (mapper_deterministic samples.inflection samples.leaf_schema
           samples.leaf_schema_again).
  - split; reflexivity.
  - checked.
  - checked.
Defined.

(** C8, as stated, fails: whatever the naming functions, the two single
    properties of [Leaf] map to one table. *)
Lemma single_properties_share_table :
  ¬ ∃ infl, tablenames_injective infl [samples.leaf_schema].
Proof.
  intros [infl H].
  apply (H samples.leaf_schema samples.leaf_schema
           samples.name_prop samples.size_prop _ _
           ltac:(left) ltac:(left) ltac:(left)
           ltac:(right; right; left) ltac:(cbn; lia)
           eq_refl eq_refl).
  reflexivity.
Qed.

Example leaf_class_references :
  get_types_used_by samples.leaf = ["Mid"; "string"; "Item"]
  ∧ get_classes_used_by samples.leaf = Val ["Item"; "Mid"].
Proof. split; reflexivity. Qed.

Lemma classes_used_by_sorted_set_witness :
  ∃ l, get_classes_used_by samples.leaf = Val l
    ∧ (∀ t, t ∈ l ↔
            (t ∈ ql.Class.bases samples.leaf
             ∨ ∃ p, p ∈ ql.Class.properties samples.leaf
                    ∧ ql.Property.type (deref p) = t)
            ∧ starts_upper t = true)
    ∧ (∀ t, t ∈ l ↔ t ∈ get_types_used_by samples.leaf ∧ starts_upper t = true)
    ∧ NoDup l
    ∧ Sorted str_le l
    ∧ (∀ l', NoDup l' → Sorted str_le l' → (∀ t, t ∈ l' ↔ t ∈ l) → l' = l)
    ∧ (∀ walk : list string,
         walk ≡ₚ elements (list_to_set
                   (filter (fun t => starts_upper t = true)
                           (ql.Class.bases samples.leaf
                            ++ map (fun p => ql.Property.type (deref p))
                                 (ql.Class.properties samples.leaf)))
                   : gset string) →
         merge_sort str_le walk = l).
Proof.
  apply (classes_used_by_sorted_set samples.leaf).
  - apply Forall_forall. checked.
  - apply Forall_forall. checked.
Defined.

Lemma stub_guard_raises_iff_witness :
  (_is_generated_stub {[ "Leaf.qll" := pristine_stub ]} "Leaf.qll"
   = Raise (ModifiedStubMarkedAsGeneratedError "Leaf.qll")
   ↔ line_threshold ≤ length (readlines stub_body)
     ∨ ¬ stub_shaped (join (take line_threshold (readlines stub_body))))
  ∧ (_is_generated_stub {[ "Leaf.qll" := pristine_stub ]} "Leaf.qll" = Val true
     ↔ length (readlines stub_body) < line_threshold
       ∧ stub_shaped (join (take line_threshold (readlines stub_body))))
  ∧ (_is_generated_stub {[ "Leaf.qll" := pristine_stub ]} "Leaf.qll"
       = Raise (ModifiedStubMarkedAsGeneratedError "Leaf.qll")
     ∨ _is_generated_stub {[ "Leaf.qll" := pristine_stub ]} "Leaf.qll"
       = Val true).
Proof.
  apply (stub_guard_raises_iff {[ "Leaf.qll" := pristine_stub ]}
           "Leaf.qll" pristine_stub marker_line (readlines stub_body));
    vm_compute; reflexivity.
Defined.

Lemma marker_preamble_is_first_line_witness :
  (length (readlines stub_body) < line_threshold →
   stub_shaped (join (readlines stub_body)) →
   _is_generated_stub {[ "Leaf.qll" := pristine_stub ]} "Leaf.qll" = Val true)
  ∧ (∀ line2 rest', readlines stub_body = line2 :: rest' →
       String.prefix "// generated" line2 = true →
       _is_generated_stub {[ "Leaf.qll" := pristine_stub ]} "Leaf.qll"
       = Raise (ModifiedStubMarkedAsGeneratedError "Leaf.qll")).
Proof.
  apply (marker_preamble_is_first_line {[ "Leaf.qll" := pristine_stub ]}
           "Leaf.qll" pristine_stub marker_line (readlines stub_body));
    vm_compute; reflexivity.
Defined.

Lemma should_skip_qltest_iff_witness :
  (∃ b, _should_skip_qltest 2 samples.mid samples.plain = Val b
        ∧ (b = true ↔
             ql.Class.qltest_skip samples.mid = true
             ∨ (ql.Class.final samples.mid = false
                ∧ ql.Class.qltest_collapse_hierarchy samples.mid = false)
             ∨ UnderCollapsed samples.plain samples.mid))
  ∧ (UnderCollapsed samples.plain samples.mid
     ↔ ∃ a, DerivesUnbroken samples.plain samples.mid a
            ∧ ql.Class.qltest_collapse_hierarchy a = true).
Proof.
  apply (should_skip_qltest_iff samples.plain samples.depth
           plain_closed_acyclic 2 "Mid" samples.mid).
  - reflexivity.
  - vm_compute. lia.
Defined.

Lemma collapse_inherited_unless_overridden_witness :
  (∀ b fuel', DerivesUnbroken samples.collapsed samples.leaf b →
     _is_in_qltest_collapsed_hierachy fuel' b samples.collapsed = Val true →
     _is_under_qltest_collapsed_hierachy 3 samples.leaf samples.collapsed
     = Val true)
  ∧ (ql.Class.qltest_uncollapse_hierarchy samples.leaf = true →
     _is_under_qltest_collapsed_hierachy 3 samples.leaf samples.collapsed
     = Val false).
Proof.
  apply (collapse_inherited_unless_overridden samples.collapsed samples.depth
           collapsed_closed_acyclic 3 "Leaf" samples.leaf).
  - reflexivity.
  - vm_compute. lia.
Defined.

(** The fourth scenario of the design: [Mid] is skipped, the final
    [Leaf] is not. *)
Example mid_skipped_leaf_generated :
  _should_skip_qltest 3 samples.mid samples.plain = Val true
  ∧ _should_skip_qltest 3 samples.leaf samples.plain = Val false.
Proof. split; reflexivity. Qed.

(** Below a collapsed [Base], [Mid] and [Leaf] are under a collapsed
    hierarchy; with the override on [Mid], neither is. *)
Example collapse_reaches_leaf :
  _is_under_qltest_collapsed_hierachy 3 samples.leaf samples.collapsed
  = Val true
  ∧ _is_under_qltest_collapsed_hierachy 3 samples.mid_u samples.overridden
    = Val false
  ∧ _is_under_qltest_collapsed_hierachy 3 samples.leaf samples.overridden
    = Val false.
Proof. repeat split; reflexivity. Qed.

(** C4, as stated, fails: the final [Leaf] carries neither the skip
    pragma nor the override, and the chain [Leaf], [Mid], [Base] reaches
    a collapsed class; yet [Leaf] is not skipped, because [Mid] carries
    the override. *)
Lemma final_class_below_override_not_skipped :
  samples.overridden !! "Leaf" = Some samples.leaf
  ∧ ql.Class.qltest_skip samples.leaf = false
  ∧ ql.Class.final samples.leaf = true
  ∧ ql.Class.qltest_uncollapse_hierarchy samples.leaf = false
  ∧ Derives samples.overridden samples.leaf samples.base_c
  ∧ Collapsed samples.overridden samples.base_c
  ∧ _should_skip_qltest 3 samples.leaf samples.overridden = Val false.
Proof.
  repeat (split; [reflexivity|]). split; [|split; [by left|reflexivity]].
  apply (derives_trans _ samples.leaf "Mid" samples.mid_u); [left|done|].
  apply (derives_direct _ samples.mid_u "Base"); [left|done].
Qed.

(** C5, as stated, fails: [Leaf] derives from the collapsed [Base] and
    carries no override, yet it is not under a collapsed hierarchy,
    because [Mid], in between, carries the override. *)
Lemma override_in_between_stops_collapse :
  closed_acyclic samples.overridden samples.depth
  ∧ Derives samples.overridden samples.leaf samples.base_c
  ∧ _is_in_qltest_collapsed_hierachy 3 samples.base_c samples.overridden
    = Val true
  ∧ ql.Class.qltest_uncollapse_hierarchy samples.leaf = false
  ∧ _is_under_qltest_collapsed_hierachy 3 samples.leaf samples.overridden
    = Val false.
Proof.
  split; [exact overridden_closed_acyclic|]. split.
  - apply (derives_trans _ samples.leaf "Mid" samples.mid_u); [left|done|].
    apply (derives_direct _ samples.mid_u "Base"); [left|done].
  - split; [|split]; reflexivity.
Qed.

Lemma flattened_properties_distinct_witness :
  ∃ items tested,
    _get_all_properties 3 samples.bottom samples.diamond = Val items
    ∧ tested = properties_to_be_tested ∅ items
    ∧ _get_all_properties_to_be_tested samples.qllib 3 samples.bottom
        samples.diamond
      = Val (map (fun p => property_for_test samples.qllib (deref p)) tested)
    ∧ NoDup (map oid tested)
    ∧ (∀ q, q ∈ tested →
         ql.Property.qltest_skip (deref q) = false
         ∧ ∃ o, q ∈ ql.Class.properties o
                ∧ (o = samples.bottom ∨ Derives samples.diamond samples.bottom o)
                ∧ ql.Class.qltest_skip o = false)
    ∧ (∀ a p, a = samples.bottom ∨ Derives samples.diamond samples.bottom a →
         p ∈ ql.Class.properties a →
         ql.Class.qltest_skip a = false →
         ql.Property.qltest_skip (deref p) = false →
         length (filter (fun q => oid q = oid p) tested) = 1)
    ∧ ((∀ o1 o2 p1 p2, (o1, p1) ∈ items → (o2, p2) ∈ items →
          oid p1 = oid p2 → o1 = o2) →
       ∀ a p, a = samples.bottom ∨ Derives samples.diamond samples.bottom a →
         p ∈ ql.Class.properties a →
         ql.Class.qltest_skip a = true → oid p ∉ map oid tested).
Proof.
  apply (flattened_properties_distinct samples.qllib samples.diamond
           samples.depth diamond_closed_acyclic 3 "Bottom" samples.bottom).
  - reflexivity.
  - vm_compute. lia.
Defined.

(** The diamond, evaluated: [P] is reached through [Left] and through
    [Right], and tested once. *)
Example diamond_property_once :
  _get_all_properties 3 samples.bottom samples.diamond
  = Val [(samples.top, samples.P); (samples.top, samples.P)]
  ∧ properties_to_be_tested ∅
      [(samples.top, samples.P); (samples.top, samples.P)]
    = [samples.P].
Proof. split; reflexivity. Qed.

Lemma broken_reference_aborts_witness :
  (∃ e, (generate samples.pathlib samples.qllib samples.render_text samples.opts
           samples.empty_stub_fs [samples.base; samples.leaf; samples.mid]).2
        = Raise e)
  ∧ ∀ imps dest,
      (RClass (set_imports samples.leaf imps), dest)
      ∉ rendered
          (generate samples.pathlib samples.qllib samples.render_text
             samples.opts samples.empty_stub_fs
             [samples.base; samples.leaf; samples.mid]).1.
Proof.
  apply (broken_reference_aborts samples.pathlib samples.qllib
           samples.render_text samples.opts samples.empty_stub_fs
           [samples.base; samples.leaf; samples.mid] samples.leaf
           ["Item"; "Mid"] "Item").
  - right. left.
  - vm_compute. reflexivity.
  - left.
  - apply Forall_forall. checked.
Defined.

Lemma empty_stub_left_alone_witness :
  _is_generated_stub samples.empty_stub_fs samples.leaf_stub_file = Val false
  ∧ (∀ existing,
       existing_outputs samples.pathlib samples.opts samples.empty_stub_fs
       = Val existing →
       samples.leaf_stub_file ∉ existing)
  ∧ files (generate samples.pathlib samples.qllib samples.render_text
             samples.opts samples.empty_stub_fs
             [samples.base; samples.item; samples.leaf; samples.mid]).1
    !! samples.leaf_stub_file = Some ""
  ∧ (∀ d, (d, samples.leaf_stub_file)
          ∉ rendered
              (generate samples.pathlib samples.qllib samples.render_text
                 samples.opts samples.empty_stub_fs
                 [samples.base; samples.item; samples.leaf; samples.mid]).1).
Proof.
  apply (empty_stub_left_alone samples.pathlib samples.qllib
           samples.render_text samples.opts samples.empty_stub_fs
           [samples.base; samples.item; samples.leaf; samples.mid]
           samples.leaf_stub_file).
  - reflexivity.
  - checked.
  - checked.
  - checked.
  - intros c rel Hc Hrel.
    repeat (apply elem_of_cons in Hc as [->|Hc]);
      [..|by apply elem_of_nil in Hc];
      vm_compute in Hrel; injection Hrel as <-; vm_compute; discriminate.
Defined.

(** The run on the sample: the stubs of the other classes are written,
    the empty stub of [Leaf] is not. *)
Example leaf_stub_not_rendered :
  map snd (rendered
    (generate samples.pathlib samples.qllib samples.render_text samples.opts
       samples.empty_stub_fs
       [samples.base; samples.item; samples.leaf; samples.mid]).1)
  = ["swift/ql/lib/codeql/swift/generated/Base.qll";
     "swift/ql/lib/codeql/swift/elements/Base.qll";
     "swift/ql/lib/codeql/swift/generated/Item.qll";
     "swift/ql/lib/codeql/swift/elements/Item.qll";
     "swift/ql/lib/codeql/swift/generated/Leaf.qll";
     "swift/ql/lib/codeql/swift/generated/Mid.qll";
     "swift/ql/lib/codeql/swift/elements/Mid.qll"].
Proof. vm_compute. reflexivity. Qed.

(** * Further properties *)

(** ** [_partition] *)

Lemma partition_from {A} (pred : A → bool) (l yes no : list A) :
  fold_left
    (fun res x =>
       if negb (pred x) then (res.1, res.2 ++ [x]) else (res.1 ++ [x], res.2))
    l (yes, no)
  = (yes ++ filter (fun x => pred x = true) l,
     no ++ filter (fun x => pred x = false) l).
Proof.
  revert yes no. induction l as [|x l IH]; intros yes no; cbn [fold_left].
  - by rewrite !app_nil_r.
  - rewrite !filter_cons. destruct (pred x) eqn:Hx; cbn [negb fst snd].
    + rewrite IH. rewrite decide_True by done. rewrite decide_False by done.
      by rewrite <- app_assoc.
    + rewrite IH. rewrite decide_False by done. rewrite decide_True by done.
      by rewrite <- app_assoc.
Qed.

Lemma partition_eq {A} (l : list A) (pred : A → bool) :
  _partition l pred
  = (filter (fun x => pred x = true) l, filter (fun x => pred x = false) l).
Proof. unfold _partition. by rewrite partition_from. Qed.

Lemma filter_complement_perm {A} (pred : A → bool) (l : list A) :
  filter (fun x => pred x = true) l ++ filter (fun x => pred x = false) l ≡ₚ l.
Proof.
  induction l as [|x l IH]; [done|]. rewrite !filter_cons.
  destruct (pred x).
  - rewrite decide_True by done. rewrite decide_False by done.
    cbn. by rewrite IH.
  - rewrite decide_False by done. rewrite decide_True by done.
    rewrite <- Permutation_middle. by rewrite IH.
Qed.

(** X1: [_partition] splits a list in the elements of which the
    predicate holds and the others, each part in the order of the
    list; together they are the list, up to order. *)
Theorem partition_filters {A} (l : list A) (pred : A → bool) :
  (_partition l pred).1 = filter (fun x => pred x = true) l
  ∧ (_partition l pred).2 = filter (fun x => pred x = false) l
  ∧ (_partition l pred).1 ++ (_partition l pred).2 ≡ₚ l
  ∧ length (_partition l pred).1 + length (_partition l pred).2 = length l.
Proof.
  rewrite partition_eq. cbn [fst snd].
  split; [done|]. split; [done|].
  split; [apply filter_complement_perm|].
  by rewrite <- length_app, filter_complement_perm.
Qed.

(** ** Import resolver *)

Lemma filterM_raises {A} (f : A → result bool) (l : list A) (e : exn) :
  filterM f l = Raise e → ∃ x, x ∈ l ∧ f x = Raise e.
Proof.
  induction l as [|x l IH]; cbn; [done|].
  destruct (f x) as [b|e'] eqn:Hx; cbn.
  - destruct (filterM f l) as [xs|e'] eqn:Hl; cbn; [done|].
    intros [= ->]. destruct (IH eq_refl) as (y & Hy & Hfy).
    exists y. split; [by right|done].
  - intros [= ->]. exists x. split; [left|done].
Qed.

Lemma filterM_all_val {A} (f : A → result bool) (l : list A) :
  (∀ x, x ∈ l → ∃ b, f x = Val b) → ∃ l', filterM f l = Val l'.
Proof.
  induction l as [|x l IH]; intros Hf; cbn; [by eexists|].
  destruct (Hf x) as [b ->]; [left|]. cbn.
  destruct IH as [l' ->]; [intros y Hy; apply Hf; by right|]. cbn. by eexists.
Qed.

(** X2: [get_classes_used_by] raises exactly when the name of a base
    or the declared type of a property of the class is the empty
    string, and what it raises then is [IndexError]. *)
Theorem classes_used_by_raises_iff (cls : ql.Class) :
  (get_classes_used_by cls = Raise IndexError
   ↔ "" ∈ ql.Class.bases cls
     ∨ ∃ p, p ∈ ql.Class.properties cls ∧ ql.Property.type (deref p) = "")
  ∧ ∀ e, get_classes_used_by cls = Raise e → e = IndexError.
Proof.
  assert (Hraise : ∀ e, get_classes_used_by cls = Raise e →
            e = IndexError ∧ "" ∈ get_types_used_by cls).
  { intros e H. unfold get_classes_used_by in H.
    destruct (filterM _ _) as [ts|e'] eqn:Hts; cbn in H; [done|].
    injection H as ->. apply filterM_raises in Hts as (t & Ht & Hr).
    destruct t; cbn in Hr; [|done]. injection Hr as <-. by split. }
  split; [|intros e H; by apply Hraise].
  rewrite <- types_used_by_members. split.
  - intros H. by apply Hraise in H as [_ ?].
  - intros Hin. destruct (get_classes_used_by cls) as [l|e] eqn:Hg.
    + exfalso. unfold get_classes_used_by in Hg.
      destruct (filterM _ _) as [ts|e'] eqn:Hts; cbn in Hg; [|done].
      clear Hg. revert ts Hts.
      induction (get_types_used_by cls) as [|t l' IH]; intros ts Hts.
      * by apply elem_of_nil in Hin.
      * cbn in Hts. apply elem_of_cons in Hin as [<-|Hin]; [done|].
        destruct (is_class_reference t); cbn in Hts; [|done].
        destruct (filterM is_class_reference l') as [xs|]; [|done].
        by eapply IH.
    + by destruct (Hraise e eq_refl) as [-> _].
Qed.

(** ** Relational mapper, all kinds *)

Lemma count_replicate_other (n : nat) (x y : string) :
  x ≠ y → count_occ string_dec (replicate n x) y = 0.
Proof.
  intros Hne. induction n as [|n IH]; [done|]. cbn [replicate count_occ].
  by destruct (string_dec x y).
Qed.

Lemma single_slots_shape (cls : schema.Class) (prop : object schema.Property) :
  prop ∈ schema.Class.properties cls →
  NoDup (map oid (schema.Class.properties cls)) →
  single prop →
  ∃ k m, single_slots cls prop
         = replicate k "_" ++ "result" :: replicate m "_".
Proof.
  intros Hin Hnd Hsingle.
  assert (Hf : prop ∈ filter single (schema.Class.properties cls))
    by (by apply list_elem_of_filter).
  destruct (list_elem_of_split _ _ Hf) as (before & after & Hsplit).
  assert (Hnd' : NoDup (map oid (before ++ prop :: after))).
  { rewrite <- Hsplit. eapply sublist_NoDup; [exact Hnd|].
    apply (fmap_sublist oid), sublist_filter. }
  rewrite map_app in Hnd'. cbn [map] in Hnd'.
  apply NoDup_app in Hnd' as (_ & Hdisj & Hnd').
  apply NoDup_cons in Hnd' as [Hafter _].
  exists (length before), (length after).
  unfold single_slots. rewrite Hsplit, map_app. cbn [map].
  rewrite !slots_of_others; [|done|].
  - unfold is_. by rewrite Nat.eqb_refl.
  - intros Hb. apply (Hdisj _ Hb). left.
Qed.

Section MapperKinds.
Variable infl : Inflection.

(** X3: a property with none of the four kinds is mapped to nothing;
    any other is bound to columns that start with "this", hold
    "result" once unless the property is a mere predicate, and hold
    "index" only when it is mapped as repeated, which is also when it
    has a plural.  Single comes before repeated, repeated before
    optional, optional before predicate. *)
Theorem property_binding_by_kind (cls : schema.Class)
    (prop : object schema.Property) :
  prop ∈ schema.Class.properties cls →
  NoDup (map oid (schema.Class.properties cls)) →
  (get_ql_property infl cls prop = None
   ↔ schema.Property.is_single (deref prop) = false
     ∧ schema.Property.is_repeated (deref prop) = false
     ∧ schema.Property.is_optional (deref prop) = false
     ∧ schema.Property.is_predicate (deref prop) = false)
  ∧ ∀ qp, get_ql_property infl cls prop = Some qp →
      head (ql.Property.tableparams qp) = Some "this"
      ∧ count_occ string_dec (ql.Property.tableparams qp) "result"
        = (if schema.Property.is_single (deref prop)
              || schema.Property.is_repeated (deref prop)
              || schema.Property.is_optional (deref prop)
           then 1 else 0)
      ∧ count_occ string_dec (ql.Property.tableparams qp) "index"
        = (if negb (schema.Property.is_single (deref prop))
              && schema.Property.is_repeated (deref prop)
           then 1 else 0)
      ∧ (is_Some (ql.Property.plural qp)
         ↔ schema.Property.is_single (deref prop) = false
           ∧ schema.Property.is_repeated (deref prop) = true).
Proof.
  intros Hin Hnd. unfold get_ql_property.
  destruct (schema.Property.is_single (deref prop)) eqn:Hs.
  { destruct (single_slots_shape cls prop Hin Hnd Hs) as (k & m & Hshape).
    split; [split; [done|by intros [? _]]|].
    intros qp [= <-]. cbn [ql.Property.tableparams ql.Property.plural orb negb andb].
    rewrite Hshape. split; [done|]. split; [|split].
    - cbn [count_occ]. destruct (string_dec "this" "result"); [done|].
      rewrite count_occ_app, count_replicate_other by done. cbn [count_occ].
      destruct (string_dec "result" "result"); [|done].
      by rewrite count_replicate_other.
    - cbn [count_occ]. destruct (string_dec "this" "index"); [done|].
      rewrite count_occ_app, count_replicate_other by done. cbn [count_occ].
      destruct (string_dec "result" "index"); [done|].
      by rewrite count_replicate_other.
    - split; [by intros [? [=]]|by intros [[=] _]]. }
  destruct (schema.Property.is_repeated (deref prop)) eqn:Hr.
  { split; [split; [done|by intros (_ & ? & _)]|].
    intros qp [= <-]. cbn. repeat split; eauto. }
  destruct (schema.Property.is_optional (deref prop)) eqn:Ho.
  { split; [split; [done|by intros (_ & _ & ? & _)]|].
    intros qp [= <-]. cbn.
    repeat split; try done; try (by intros [? [=]]); by intros [_ [=]]. }
  destruct (schema.Property.is_predicate (deref prop)) eqn:Hp.
  { split; [split; [done|by intros (_ & _ & _ & ?)]|].
    intros qp [= <-]. cbn.
    repeat split; try done; try (by intros [? [=]]); by intros [_ [=]]. }
  split; [done|]. intros qp [=].
Qed.
End MapperKinds.

(** ** Import paths *)

Lemma replace_char_gone (a b : ascii) (s : string) :
  a ≠ b → all_chars (fun c => negb (Ascii.eqb c a)) (replace_char a b s) = true.
Proof.
  intros Hne. induction s as [|c s IH]; [done|]. cbn. rewrite IH, andb_true_r.
  destruct (Ascii.eqb_spec c a) as [->|Hca].
  - apply negb_true_iff, Ascii.eqb_neq. congruence.
  - by apply negb_true_iff, Ascii.eqb_neq.
Qed.

Lemma replace_char_absent (a b : ascii) (s : string) :
  all_chars (fun c => negb (Ascii.eqb c a)) s = true → replace_char a b s = s.
Proof.
  induction s as [|c s IH]; [done|]. cbn. intros [Hc Hs]%andb_true_iff.
  rewrite IH by done. apply negb_true_iff in Hc. by rewrite Hc.
Qed.

Lemma replace_char_length (a b : ascii) (s : string) :
  String.length (replace_char a b s) = String.length s.
Proof. induction s as [|c s IH]; [done|]. cbn. by rewrite IH. Qed.

Lemma replace_char_get (a b : ascii) (s : string) :
  ∀ n, String.get n (replace_char a b s)
       = option_map (fun c => if Ascii.eqb c a then b else c) (String.get n s).
Proof.
  induction s as [|c s IH]; intros n; [done|]. cbn.
  destruct n as [|n]; [done|]. apply IH.
Qed.

(** X4: an import path is the stem of the file below [ql/lib] with a
    dot in the place of every path separator and every other
    character as it is: position by position, it holds a dot where
    the stem holds a separator and the character of the stem
    elsewhere.  So it holds no separator, is as long as the stem, and
    is the stem itself when that holds no separator. *)
Theorem import_has_no_separator (pathlib : Pathlib) (file swift_dir i : string) :
  get_import pathlib file swift_dir = Val i →
  all_chars (fun c => negb (Ascii.eqb c "/")) i = true
  ∧ ∃ rel stem,
      relative_to pathlib file (joinpath pathlib swift_dir "ql/lib") = Val rel
      ∧ with_suffix pathlib rel "" = Val stem
      ∧ String.length i = String.length stem
      ∧ (∀ n, String.get n i
              = option_map (fun c => if Ascii.eqb c "/" then "."%char else c)
                           (String.get n stem))
      ∧ (all_chars (fun c => negb (Ascii.eqb c "/")) stem = true → i = stem).
Proof.
  unfold get_import. intros H.
  destruct (relative_to _ _ _) as [rel|] eqn:Hrel; [|done]. cbn in H.
  destruct (with_suffix _ _ _) as [stem|] eqn:Hstem; [|done]. cbn in H.
  injection H as <-. split; [by apply replace_char_gone|].
  exists rel, stem. split; [done|]. split; [done|].
  split; [apply replace_char_length|].
  split; [apply replace_char_get|apply replace_char_absent].
Qed.

(** ** Stub guard, on what the generator writes *)

Section StubShapeFacts.
#[local] Arguments String.append !s1 s2 : simpl nomatch.

Lemma all_chars_app (f : ascii → bool) (s t : string) :
  all_chars f (s +:+ t) = all_chars f s && all_chars f t.
Proof.
  induction s as [|c s IH]; [done|]. cbn. by rewrite IH, andb_assoc.
Qed.

Lemma all_chars_impl (f g : ascii → bool) (s : string) :
  (∀ c, f c = true → g c = true) → all_chars f s = true → all_chars g s = true.
Proof.
  intros Hfg. induction s as [|c s IH]; [done|]. cbn.
  intros [Hc Hs]%andb_true_iff. by rewrite (Hfg c Hc), IH.
Qed.

Lemma word_has_no_newline (s : string) :
  all_chars isword s = true →
  all_chars (fun c => negb (Ascii.eqb c nl)) s = true.
Proof.
  apply all_chars_impl. intros c Hc.
  destruct (Ascii.eqb_spec c nl) as [->|]; [|done]. by vm_compute in Hc.
Qed.

Lemma prefix_append (p s t : string) :
  String.prefix p s = true → String.prefix p (s +:+ t) = true.
Proof.
  revert p. induction s as [|b s IH]; intros [|a p]; cbn; try done.
  - by destruct t.
  - destruct (ascii_dec a b); [apply IH|done].
Qed.

(** A line without newline, then a newline: the first line read. *)
Lemma readlines_line (m rest : string) :
  all_chars (fun c => negb (Ascii.eqb c nl)) m = true →
  readlines (m +:+ NL +:+ rest) = (m +:+ NL) :: readlines rest.
Proof.
  induction m as [|c m IH]; [done|]. cbn [all_chars].
  intros [Hc Hm]%andb_true_iff. apply negb_true_iff in Hc.
  change (String c m +:+ NL +:+ rest) with (String c (m +:+ NL +:+ rest)).
  cbn [readlines]. by rewrite Hc, IH.
Qed.

Lemma readlines_lines (ms : list string) :
  Forall (fun m => all_chars (fun c => negb (Ascii.eqb c nl)) m = true) ms →
  readlines (join (map (fun m => m +:+ NL) ms)) = map (fun m => m +:+ NL) ms.
Proof.
  induction 1 as [|m ms Hm _ IH]; [done|].
  cbn [map join fold_right]. fold (join (map (fun m => m +:+ NL) ms)).
  by rewrite append_assoc, readlines_line, IH.
Qed.

(** X5: a file made of a marker line, an import, a blank line and an
    empty class extending one base, the braces on one line or on two,
    is pristine: what is written in the shape of the pattern is not
    taken for modified at the next run. *)
Theorem written_stub_is_pristine (fs : gmap string string)
    (file marker imp cls base sep : string) :
  fs !! file
  = Some (marker +:+ NL +:+ "private import " +:+ imp +:+ NL +:+ NL
          +:+ "class " +:+ cls +:+ " extends " +:+ base
          +:+ " {" +:+ sep +:+ "}" +:+ NL) →
  String.prefix "// generated" marker = true →
  all_chars (fun c => negb (Ascii.eqb c nl)) marker = true →
  all_chars (fun c => negb (Ascii.eqb c nl)) imp = true →
  cls ≠ "" → all_chars isword cls = true →
  base ≠ "" → all_chars isword base = true →
  sep = " " ∨ sep = NL →
  _is_generated_stub fs file = Val true.
Proof.
  intros Hfile Hmark Hm Himp Hcls Hclsw Hbase Hbasew Hsep.
  unfold _is_generated_stub. rewrite Hfile.
  pose proof (word_has_no_newline _ Hclsw) as Hclsn.
  pose proof (word_has_no_newline _ Hbasew) as Hbasen.
  assert (Hlines : ∃ ms,
    marker +:+ NL +:+ "private import " +:+ imp +:+ NL +:+ NL
      +:+ "class " +:+ cls +:+ " extends " +:+ base
      +:+ " {" +:+ sep +:+ "}" +:+ NL
    = join (map (fun m => m +:+ NL) (marker :: ms))
    ∧ Forall (fun m => all_chars (fun c => negb (Ascii.eqb c nl)) m = true) ms
    ∧ length ms < line_threshold).
  { destruct Hsep as [-> | ->].
    - exists ["private import " +:+ imp; "";
              "class " +:+ cls +:+ " extends " +:+ base +:+ " { }"].
      split; [|split].
      + cbn [map join fold_right]. rewrite !append_assoc. reflexivity.
      + repeat constructor; rewrite ?all_chars_app;
          rewrite ?Himp, ?Hclsn, ?Hbasen; reflexivity.
      + cbn. unfold line_threshold. lia.
    - exists ["private import " +:+ imp; "";
              "class " +:+ cls +:+ " extends " +:+ base +:+ " {"; "}"].
      split; [|split].
      + cbn [map join fold_right]. rewrite !append_assoc. reflexivity.
      + repeat constructor; rewrite ?all_chars_app;
          rewrite ?Himp, ?Hclsn, ?Hbasen; reflexivity.
      + cbn. unfold line_threshold. lia. }
  destruct Hlines as (ms & Htext & Hms & Hlen).
  assert (Hrest :
    join (map (fun m => m +:+ NL) ms)
    = "private import " +:+ imp +:+ NL +:+ NL
      +:+ "class " +:+ cls +:+ " extends " +:+ base
      +:+ " {" +:+ sep +:+ "}" +:+ NL).
  { cbn [map join fold_right] in Htext.
    fold (join (map (fun m => m +:+ NL) ms)) in Htext.
    rewrite append_assoc in Htext.
    apply (String.app_inj marker), (String.app_inj NL) in Htext. done. }
  rewrite Htext, readlines_lines by (by constructor).
  cbn [map].
  destruct (stub_check_marked file (marker +:+ NL)
              (map (fun m => m +:+ NL) ms) (prefix_append _ _ _ Hmark))
    as [(_ & _ & ->)|([Hbad|Hbad] & _)]; [done|..].
  - rewrite length_map in Hbad. lia.
  - exfalso. apply Hbad. rewrite take_ge by (rewrite length_map; lia).
    rewrite Hrest. exists imp, cls, base, sep, NL. by repeat split.
Qed.
End StubShapeFacts.

(** ** Generation driver, the whole loop *)

Lemma filterM_members {A} (f : A → result bool) (l l' : list A) :
  filterM f l = Val l' → ∀ x, x ∈ l' ↔ x ∈ l ∧ f x = Val true.
Proof.
  revert l'. induction l as [|y l IH]; intros l' H x; cbn in H.
  - injection H as <-. split; [by intros ?%elem_of_nil|by intros [?%elem_of_nil _]].
  - destruct (f y) as [b|] eqn:Hy; [|done]. cbn in H.
    destruct (filterM f l) as [l0|] eqn:Hl; [|done]. cbn in H.
    injection H as <-. specialize (IH l0 eq_refl x). destruct b.
    + rewrite !elem_of_cons, IH. split.
      * intros [->|[? ?]]; [by split; [left|]|by split; [right|]].
      * intros [[->|?] ?]; [by left|by right].
    + rewrite elem_of_cons, IH. split.
      * intros [? ?]. by split; [right|].
      * intros [[->|?] ?]; [congruence|done].
Qed.

Lemma filterM_first_raise {A} (f : A → result bool) (l : list A) (x : A)
    (e : exn) :
  x ∈ l → f x = Raise e → ∃ e', filterM f l = Raise e'.
Proof.
  intros Hx Hfx. induction l as [|y l IH]; [by apply elem_of_nil in Hx|].
  cbn. destruct (f y) as [b|e0] eqn:Hy; cbn; [|by exists e0].
  apply elem_of_cons in Hx as [->|Hx]; [congruence|].
  destruct (IH Hx) as [e' ->]. cbn. by exists e'.
Qed.

Lemma mapM_getitem_values {V} (d : gmap string V) (ks : list string)
    (vs : list V) :
  mapM (getitem d) ks = Val vs → Forall2 (fun k v => d !! k = Some v) ks vs.
Proof.
  revert vs. induction ks as [|k ks IH]; intros vs H; cbn in H.
  - injection H as <-. constructor.
  - unfold getitem in H at 1. destruct (d !! k) as [v|] eqn:Hk; [|done].
    cbn in H. destruct (mapM (getitem d) ks) as [vs'|]; [|done]. cbn in H.
    injection H as <-. constructor; [done|by apply IH].
Qed.

Section DriverRun.
Variable pathlib : Pathlib.
Variable qllib : QlLib.
Variable render_text : renderable → string.
Variable opts : Opts.

#[local] Abbreviation resolve_imports := (resolve_imports pathlib qllib opts).
#[local] Abbreviation stub_to_write := (stub_to_write pathlib qllib opts).
#[local] Abbreviation generate_class :=
  (generate_class pathlib qllib render_text opts).
#[local] Abbreviation generate_classes :=
  (generate_classes pathlib qllib render_text opts).
#[local] Abbreviation build_imports := (build_imports pathlib qllib opts).
#[local] Abbreviation existing_outputs := (existing_outputs pathlib opts).
#[local] Abbreviation generate := (generate pathlib qllib render_text opts).

(** The import path the loop of lines 193-194 gives a class. *)
#[local] Abbreviation import_of := (fun c : ql.Class =>
  get_import pathlib
    (joinpath pathlib (ql_stub_output opts) (path qllib c)) (swift_dir opts)).

(** X6: the set [existing] holds the files found under the definition
    and test directories, and of the files found under the stub
    directory those, and only those, on which the guard answers
    pristine. *)
Theorem existing_outputs_members (fs : gmap string string)
    (existing : gset string) :
  existing_outputs fs = Val existing →
  ∀ q, q ∈ existing
       ↔ q ∈ rglob pathlib fs (ql_output opts) "*.qll"
         ∨ (q ∈ rglob pathlib fs (ql_stub_output opts) "*.qll"
            ∧ _is_generated_stub fs q = Val true)
         ∨ q ∈ rglob pathlib fs (ql_test_output opts) "*.ql"
         ∨ q ∈ rglob pathlib fs (ql_test_output opts) "MISSING_SOURCE.txt".
Proof.
  unfold existing_outputs. intros H q.
  destruct (filterM _ _) as [stubs|] eqn:Hstubs; [|done]. cbn in H.
  injection H as <-. rewrite !elem_of_union, !elem_of_list_to_set.
  rewrite (filterM_members _ _ _ Hstubs q). tauto.
Qed.

(** X7: a file under the stub directory on which the guard raises ends
    the run before the renderer is called and before any file is
    changed. *)
Theorem modified_stub_aborts_run (fs : gmap string string)
    (classes : list ql.Class) (q : string) (e : exn) :
  q ∈ rglob pathlib fs (ql_stub_output opts) "*.qll" →
  _is_generated_stub fs q = Raise e →
  ∃ e', generate fs classes = ({| files := fs; rendered := [] |}, Raise e').
Proof.
  intros Hq Hguard. unfold generate, existing_outputs.
  destruct (filterM_first_raise _ _ q e Hq Hguard) as [e' ->]. cbn.
  by exists e'.
Qed.

Lemma guard_same_text (fs fs' : gmap string string) (q : string) :
  fs' !! q = fs !! q → _is_generated_stub fs' q = _is_generated_stub fs q.
Proof. intros H. unfold _is_generated_stub. by rewrite H. Qed.

Lemma stub_to_write_pristine (fs : gmap string string) (qll : string)
    (c : ql.Class) (stub : ql.Stub) (stub_file : string) :
  stub_to_write fs qll c = Val (Some (stub, stub_file)) →
  fs !! stub_file = None ∨ _is_generated_stub fs stub_file = Val true.
Proof.
  unfold stub_to_write. intros H.
  destruct (with_suffix _ _ _) as [rel|]; [|done]. cbn in H.
  destruct (bool_decide _) eqn:Hfile; cbn in H.
  - destruct (_is_generated_stub fs _) as [[]|] eqn:Hgen; cbn in H; try done.
    destruct (get_import _ _ _) as [bi|]; [|done]. cbn in H.
    injection H as _ <-. by right.
  - destruct (get_import _ _ _) as [bi|]; [|done]. cbn in H.
    injection H as _ <-. left. apply bool_decide_eq_false in Hfile.
    by apply eq_None_not_Some.
Qed.

Lemma render_untouched (fs : gmap string string) (q : string) (st : state)
    (d : renderable) (o : string) :
  o ≠ q → untouched fs q st → untouched fs q (render render_text st d o).
Proof.
  intros Hne [Hfile Hrend]. split; cbn.
  - by rewrite lookup_insert_ne.
  - intros d' H. apply elem_of_app in H as [H|H]; [by apply (Hrend d')|].
    apply list_elem_of_singleton in H. congruence.
Qed.

Lemma generate_class_keeps (fs : gmap string string) (imports : gmap string string)
    (q : string) (st : state) (c : ql.Class) :
  is_Some (fs !! q) → _is_generated_stub fs q ≠ Val true →
  (∀ rel, with_suffix pathlib (path qllib c) ".qll" = Val rel →
          joinpath pathlib (ql_output opts) rel ≠ q) →
  untouched fs q st → untouched fs q (generate_class imports st c).1.
Proof.
  intros Hq Hguard Hqll Hst. unfold generate_class.
  destruct (resolve_imports imports c) as [[qll c']|] eqn:Hres; [|done].
  apply resolve_imports_inv in Hres as (rel & _ & _ & Hrel & -> & _).
  assert (Hst1 : untouched fs q
            (render render_text st (RClass c')
               (joinpath pathlib (ql_output opts) rel)))
    by (apply render_untouched; [by apply Hqll|done]).
  destruct (stub_to_write _ _ c') as [[[stub stub_file]|]|] eqn:Hstub;
    cbn [fst]; [|done..].
  apply render_untouched; [|done]. intros ->.
  destruct Hst1 as [Hfile _].
  apply stub_to_write_pristine in Hstub as [Hnone|Htrue].
  - rewrite Hfile in Hnone. rewrite Hnone in Hq. by destruct Hq.
  - by rewrite (guard_same_text fs _ q Hfile) in Htrue.
Qed.

(** X8: an existing file on which the guard does not answer pristine,
    be it taken for the user's or for modified, is never written by
    the run and keeps its text, as long as it is the definition file
    of no class. *)
Theorem non_pristine_stub_left_alone (fs : gmap string string)
    (classes : list ql.Class) (q text : string) :
  fs !! q = Some text →
  _is_generated_stub fs q ≠ Val true →
  (∀ c rel, c ∈ classes →
     with_suffix pathlib (path qllib c) ".qll" = Val rel →
     joinpath pathlib (ql_output opts) rel ≠ q) →
  files (generate fs classes).1 !! q = Some text
  ∧ ∀ d, (d, q) ∉ rendered (generate fs classes).1.
Proof.
  intros Hq Hguard Hqll.
  assert (Hst0 : untouched fs q {| files := fs; rendered := [] |}).
  { split; [done|]. intros d H. by apply elem_of_nil in H. }
  assert (untouched fs q (generate fs classes).1) as [Hf Hr].
  2:{ split; [by rewrite Hf|done]. }
  unfold generate.
  destruct (existing_outputs fs) as [existing|]; [|done].
  destruct (build_imports ∅ classes) as [imports|]; [|done].
  assert (Hloop : ∀ cs st, (∀ c, c ∈ cs → c ∈ classes) → untouched fs q st →
            untouched fs q (generate_classes imports st cs).1).
  { induction cs as [|c cs IH]; intros st Hsub Hst; [done|].
    cbn [generate_classes].
    pose proof (generate_class_keeps fs imports q st c
                  ltac:(by rewrite Hq) Hguard
                  (fun rel => Hqll c rel (Hsub c ltac:(left))) Hst) as Hc.
    destruct (generate_class imports st c) as [st' [[]|e]]; cbn [fst] in *.
    - apply IH; [|done]. intros c' Hc'. apply Hsub. by right.
    - done. }
  pose proof (Hloop classes _ (fun c H => H) Hst0) as H.
  by destruct (generate_classes imports _ classes) as [st [[]|e]].
Qed.

Lemma build_imports_other (classes : list ql.Class) :
  ∀ imports imports' k,
    build_imports imports classes = Val imports' →
    (∀ c, c ∈ classes → ql.Class.name c ≠ k) →
    imports' !! k = imports !! k.
Proof.
  induction classes as [|c cs IH]; intros imports imports' k H Hk; cbn in H.
  - by injection H as <-.
  - destruct (get_import _ _ _) as [i|]; [|done]. cbn in H.
    rewrite (IH _ _ k H) by (intros c' Hc'; apply Hk; by right).
    apply lookup_insert_ne, Hk. left.
Qed.

Lemma build_imports_grows (classes : list ql.Class) :
  ∀ imports imports' k,
    build_imports imports classes = Val imports' →
    is_Some (imports !! k) ∨ (∃ c, c ∈ classes ∧ ql.Class.name c = k) →
    is_Some (imports' !! k).
Proof.
  induction classes as [|c cs IH]; intros imports imports' k H Hk; cbn in H.
  - injection H as <-. destruct Hk as [?|(c & Hc & _)]; [done|].
    by apply elem_of_nil in Hc.
  - destruct (get_import _ _ _) as [i|]; [|done]. cbn in H.
    apply (IH _ _ k H).
    destruct Hk as [Hk|(c' & Hc' & Hk)].
    + left. destruct (decide (ql.Class.name c = k)) as [->|Hne].
      * rewrite lookup_insert_eq. by eexists.
      * by rewrite lookup_insert_ne.
    + apply elem_of_cons in Hc' as [->|Hc'].
      * left. rewrite <- Hk, lookup_insert_eq. by eexists.
      * right. by exists c'.
Qed.

(** X9: when the import table is built, its keys are the names of the
    classes; and, the names being distinct, it gives every class the
    import of its own stub file. *)
Theorem import_table_of_classes (classes : list ql.Class)
    (imports : gmap string string) :
  build_imports ∅ classes = Val imports →
  (∀ k, is_Some (imports !! k) ↔ ∃ c, c ∈ classes ∧ ql.Class.name c = k)
  ∧ (NoDup (map ql.Class.name classes) →
     ∀ c, c ∈ classes →
       ∃ i, import_of c = Val i ∧ imports !! ql.Class.name c = Some i).
Proof.
  intros H. split.
  - intros k. split.
    + intros Hk.
      destruct (build_imports_keys pathlib qllib opts classes ∅ imports k H Hk)
        as [Hin|?]; [|done].
      rewrite lookup_empty in Hin. by destruct Hin.
    + intros (c & Hc & <-).
      apply (build_imports_grows classes ∅ imports _ H). right. by exists c.
  - revert H. generalize (∅ : gmap string string).
    induction classes as [|c0 cs IH]; intros m H Hnd c Hc;
      [by apply elem_of_nil in Hc|].
    cbn [map] in Hnd. apply NoDup_cons in Hnd as [Hfresh Hnd].
    cbn in H. destruct (get_import _ _ _) as [i|] eqn:Hi; [|done]. cbn in H.
    apply elem_of_cons in Hc as [->|Hc]; [|by eapply IH].
    exists i. split; [done|].
    rewrite (build_imports_other cs _ _ _ H).
    + by rewrite lookup_insert_eq.
    + intros c' Hc' Heq. apply Hfresh. rewrite <- Heq.
      apply list_elem_of_In, in_map. by apply list_elem_of_In.
Qed.

Lemma generate_class_events (imports : gmap string string) (st st' : state)
    (c : ql.Class) (u : unit) :
  generate_class imports st c = (st', Val u) →
  ∃ qll c', resolve_imports imports c = Val (qll, c')
    ∧ class_events (rendered st') = class_events (rendered st) ++ [(c', qll)].
Proof.
  unfold generate_class.
  destruct (resolve_imports imports c) as [[qll c']|] eqn:Hres; [|done].
  destruct (stub_to_write _ qll c') as [[[stub stub_file]|]|] eqn:Hstub;
    intros [= <-]; exists qll, c'; (split; [done|]); cbn [rendered render];
    unfold class_events; rewrite ?omap_app; cbn; by rewrite ?app_nil_r.
Qed.

(** X10: when the run comes to its end, the renderer has been handed
    every class once, in the order of the list, each with the import
    paths of its class references, in their sorted order, and at its
    definition file. *)
Theorem definitions_rendered_in_order (fs : gmap string string)
    (classes : list ql.Class) (st : state) (existing : gset string) :
  generate fs classes = (st, Val existing) →
  ∃ imports,
    build_imports ∅ classes = Val imports
    ∧ Forall2
        (fun c ev =>
           ∃ rel used,
             with_suffix pathlib (path qllib c) ".qll" = Val rel
             ∧ ev.2 = joinpath pathlib (ql_output opts) rel
             ∧ get_classes_used_by c = Val used
             ∧ Forall2 (fun t i => imports !! t = Some i)
                       used (ql.Class.imports ev.1)
             ∧ ev.1 = set_imports c (ql.Class.imports ev.1))
        classes (class_events (rendered st)).
Proof.
  unfold generate. intros H.
  destruct (existing_outputs fs) as [ex|]; [|done].
  destruct (build_imports ∅ classes) as [imports|]; [|done].
  exists imports. split; [done|].
  destruct (generate_classes imports _ classes) as [st' [[]|e]] eqn:Hloop;
    [|done].
  injection H as -> _.
  assert (Hgen : ∀ cs st0 st1,
    generate_classes imports st0 cs = (st1, Val tt) →
    ∃ evs, class_events (rendered st1) = class_events (rendered st0) ++ evs
      ∧ Forall2
          (fun c ev =>
             ∃ rel used,
               with_suffix pathlib (path qllib c) ".qll" = Val rel
               ∧ ev.2 = joinpath pathlib (ql_output opts) rel
               ∧ get_classes_used_by c = Val used
               ∧ Forall2 (fun t i => imports !! t = Some i)
                         used (ql.Class.imports ev.1)
               ∧ ev.1 = set_imports c (ql.Class.imports ev.1))
          cs evs).
  { induction cs as [|c cs IH]; intros st0 st1 Hcs; cbn in Hcs.
    - injection Hcs as <-. exists []. by rewrite app_nil_r.
    - destruct (generate_class imports st0 c) as [st2 [[]|e]] eqn:Hc; [|done].
      apply generate_class_events in Hc as (qll & c' & Hres & Hev).
      destruct (IH _ _ Hcs) as (evs & Hevs & Hall).
      exists ((c', qll) :: evs). split.
      + by rewrite Hevs, Hev, <- app_assoc.
      + constructor; [|done].
        apply resolve_imports_inv in Hres
          as (rel & used & imps & Hrel & -> & Hused & Hm & ->).
        exists rel, used. cbn. repeat split; try done.
        by apply mapM_getitem_values. }
  destruct (Hgen _ _ _ Hloop) as (evs & Hevs & Hall). by rewrite Hevs.
Qed.
End DriverRun.

(** ** Hierarchy analyzer and flattening, on any table *)

Lemma anyM_first {A} (f : A → result bool) (pre post : list A) (x : A) :
  Forall (fun y => f y = Val false) pre →
  anyM f (pre ++ x :: post) = let* b := f x in
                               if b then Val true else anyM f post.
Proof.
  induction 1 as [|y pre Hy _ IH]; cbn; [done|]. rewrite Hy. cbn. exact IH.
Qed.

(** X12: the bases are examined in their order and no further than
    the first collapsed one.  With the bases before [b] known and not
    collapsed: when [b] is the name of no class the analyzer raises
    [KeyError b], and so does the test decision of a class it is asked
    about; when [b] is collapsed the answer is yes, whatever follows
    [b], names of no class included. *)
Theorem bases_examined_in_order (lookup : gmap string ql.Class) (fuel : nat)
    (c : ql.Class) (pre post : list string) (b : string) :
  ql.Class.qltest_uncollapse_hierarchy c = false →
  ql.Class.bases c = pre ++ b :: post →
  Forall (fun x => ∃ cx, lookup !! x = Some cx
            ∧ _is_in_qltest_collapsed_hierachy fuel cx lookup = Val false)
         pre →
  (lookup !! b = None →
     _is_under_qltest_collapsed_hierachy (S fuel) c lookup
     = Raise (KeyError b)
     ∧ (ql.Class.qltest_skip c = false →
        ql.Class.final c || ql.Class.qltest_collapse_hierarchy c = true →
        _should_skip_qltest (S fuel) c lookup = Raise (KeyError b)))
  ∧ (∀ cb, lookup !! b = Some cb →
       _is_in_qltest_collapsed_hierachy fuel cb lookup = Val true →
       _is_under_qltest_collapsed_hierachy (S fuel) c lookup = Val true).
Proof.
  intros Hun Hbases Hpre.
  assert (Hfirst : _is_under_qltest_collapsed_hierachy (S fuel) c lookup
    = let* r := (let* base := getitem lookup b in
                 _is_in_qltest_collapsed_hierachy fuel base lookup) in
      if r then Val true
      else anyM (fun b => let* base := getitem lookup b in
                          _is_in_qltest_collapsed_hierachy fuel base lookup)
                post).
  { cbn. rewrite Hun, Hbases.
    apply (anyM_first
             (fun b => let* base := getitem lookup b in
                       _is_in_qltest_collapsed_hierachy fuel base lookup)).
    eapply Forall_impl; [exact Hpre|]. cbn.
    intros x (cx & Hx & Hcx). unfold getitem. by rewrite Hx. }
  split.
  - intros Hb.
    assert (Hraise : _is_under_qltest_collapsed_hierachy (S fuel) c lookup
                     = Raise (KeyError b)).
    { rewrite Hfirst. unfold getitem. by rewrite Hb. }
    split; [done|]. intros Hskip Hkept. unfold _should_skip_qltest.
    by rewrite Hskip, Hkept.
  - intros cb Hb Hcb. rewrite Hfirst. unfold getitem. rewrite Hb. cbn.
    by rewrite Hcb.
Qed.

Section CollapsedRoot.
Variable lookup : gmap string ql.Class.
Variable depth : string → nat.
Hypothesis Hgraph : closed_acyclic lookup depth.

(** X13: the tests of a collapsed hierarchy are written at its root
    and nowhere below.  A class marked collapse, free of the skip
    pragma and not itself under a collapsed hierarchy, is not skipped,
    final or not; every class that derives from it along a chain
    without override is skipped. *)
Theorem collapsed_hierarchy_tested_at_root (fuel : nat) (n : string)
    (root : ql.Class) :
  lookup !! n = Some root →
  depth n < fuel →
  ql.Class.qltest_collapse_hierarchy root = true →
  ql.Class.qltest_skip root = false →
  ¬ UnderCollapsed lookup root →
  _should_skip_qltest fuel root lookup = Val false
  ∧ ∀ m d, lookup !! m = Some d → depth m < fuel →
      DerivesUnbroken lookup d root →
      _should_skip_qltest fuel d lookup = Val true.
Proof.
  intros Hn Hfuel Hcol Hskip Hroot. split.
  - unfold _should_skip_qltest. rewrite Hskip, Hcol, orb_true_r. cbn.
    destruct (under_collapsed_refines lookup depth Hgraph fuel n root Hn Hfuel)
      as ([] & -> & Hb); [|done].
    exfalso. by apply Hroot, Hb.
  - intros m d Hm Hd Hchain. unfold _should_skip_qltest.
    destruct (ql.Class.qltest_skip d); [done|].
    destruct (negb _); [done|].
    destruct (under_collapsed_refines lookup depth Hgraph fuel m d Hm Hd)
      as (b & -> & Hb).
    f_equal. apply Hb. eapply unbroken_under; [exact Hchain|by left].
Qed.
End CollapsedRoot.

Lemma properties_to_be_tested_app
    (items more : list (ql.Class * object ql.Property)) :
  ∀ seen, ∃ seen',
    properties_to_be_tested seen (items ++ more)
    = properties_to_be_tested seen items
      ++ properties_to_be_tested seen' more.
Proof.
  induction items as [|[c p] items IH]; intros seen; cbn.
  - by exists seen.
  - destruct (negb _).
    + destruct (IH ({[oid p]} ∪ seen)) as (seen' & ->). by exists seen'.
    + apply IH.
Qed.

(** X14: what a class inherits from its first base comes first.  The
    properties to be tested of a class begin with those of its first
    base, in the same order; and when the first base is the name of
    no class, the traversal raises [KeyError]. *)
Theorem first_base_properties_first (qllib : QlLib)
    (lookup : gmap string ql.Class) (fuel : nat) (c : ql.Class)
    (b : string) (rest : list string) :
  ql.Class.bases c = b :: rest →
  (lookup !! b = None →
     _get_all_properties_to_be_tested qllib (S fuel) c lookup
     = Raise (KeyError b))
  ∧ (∀ cb props, lookup !! b = Some cb →
       _get_all_properties_to_be_tested qllib (S fuel) c lookup = Val props →
       ∃ inherited,
         _get_all_properties_to_be_tested qllib fuel cb lookup = Val inherited
         ∧ inherited `prefix_of` props).
Proof.
  intros Hbases. unfold _get_all_properties_to_be_tested. cbn.
  rewrite Hbases. cbn. unfold getitem. split.
  - by intros ->.
  - intros cb props -> H. cbn in H.
    destruct (_get_all_properties fuel cb lookup) as [items|] eqn:Hitems;
      [|done]. cbn in H.
    destruct (mapM _ rest) as [others|]; [|done]. cbn in H.
    injection H as <-. eexists. split; [done|].
    rewrite <- app_assoc.
    destruct (properties_to_be_tested_app items
                (concat others ++ map (fun p => (c, p)) (ql.Class.properties c))
                ∅) as (seen' & ->).
    rewrite map_app. by eexists.
Qed.

(** ** Test queries *)

Section TestFacts.
Variable pathlib : Pathlib.
Variable glob : gmap string string → string → string → list string.
Variable qllib : QlLib.
Variable test_text : test_renderable → string.
Variable opts : Opts.

#[local] Abbreviation test_dir_of := (test_dir_of pathlib qllib opts).
#[local] Abbreviation tester_calls := (tester_calls pathlib qllib opts).
#[local] Abbreviation render_partial :=
  (render_partial pathlib qllib test_text opts).
#[local] Abbreviation generate_test :=
  (generate_test pathlib glob qllib test_text opts).
#[local] Abbreviation generate_tests :=
  (generate_tests pathlib glob qllib test_text opts).
#[local] Abbreviation property_tester_call c :=
  (fun p => (RPropertyTester (ql.Class.name c) p,
             joinpath pathlib (test_dir_of c)
               (ql.Class.name c +:+ "_" +:+ ql.PropertyForTest.getter p
                +:+ ".ql"))).

Lemma render_partial_log (c : ql.Class) (ps : list ql.PropertyForTest) :
  ∀ st,
    trendered (render_partial st c ps)
    = trendered st ++ map (property_tester_call c) ps
    ∧ made (render_partial st c ps) = made st
    ∧ warnings (render_partial st c ps) = warnings st
    ∧ ∀ o, is_Some (tfiles st !! o) ∨ o ∈ map snd (map (property_tester_call c) ps) →
           is_Some (tfiles (render_partial st c ps) !! o).
Proof.
  induction ps as [|p ps IH]; intros st; cbn.
  - rewrite app_nil_r. repeat split; try done.
    intros o [?|H]; [done|]. by apply elem_of_nil in H.
  - destruct (IH (render_test test_text st (RPropertyTester (ql.Class.name c) p)
                    (joinpath pathlib (test_dir_of c)
                       (ql.Class.name c +:+ "_"
                        +:+ ql.PropertyForTest.getter p +:+ ".ql"))))
      as (Hlog & Hmade & Hwarn & Hfiles).
    unfold render_partial in *. cbn in *.
    rewrite Hlog, Hmade, Hwarn, <- app_assoc. repeat split; try done.
    intros o Ho. apply Hfiles.
    destruct Ho as [Ho|Ho].
    + left. destruct (decide (joinpath pathlib (test_dir_of c)
                       (ql.Class.name c +:+ "_"
                        +:+ ql.PropertyForTest.getter p +:+ ".ql") = o))
        as [->|Hne].
      * rewrite lookup_insert_eq. by eexists.
      * by rewrite lookup_insert_ne.
    + apply elem_of_cons in Ho as [->|Ho]; [|by right].
      left. rewrite lookup_insert_eq. by eexists.
Qed.

Lemma generate_test_tested (fuel : nat) (lookup : gmap string ql.Class)
    (st : test_state) (c : ql.Class) (props : list ql.PropertyForTest) :
  _should_skip_qltest fuel c lookup = Val false →
  glob (tfiles st) (test_dir_of c) "*.swift" ≠ [] →
  _get_all_properties_to_be_tested qllib fuel c lookup = Val props →
  ∃ st',
    generate_test fuel lookup st c = (st', Val tt)
    ∧ made st' = made st ++ [test_dir_of c]
    ∧ warnings st' = warnings st
    ∧ trendered st' = trendered st ++ tester_calls c props
    ∧ ∀ ev, ev ∈ tester_calls c props → is_Some (tfiles st' !! ev.2).
Proof.
  intros Hskip Hglob Hprops.
  unfold generate_test. rewrite Hskip. cbn [mkdir tfiles].
  rewrite bool_decide_true by done. cbn [negb]. rewrite Hprops.
  rewrite partition_eq.
  set (st2 := render_test _ _ _ _).
  destruct (render_partial_log c (filter (fun p => is_total p = false) props)
              st2) as (Hlog & Hmade & Hwarn & Hfiles).
  eexists. split; [reflexivity|].
  split; [by rewrite Hmade|]. split; [by rewrite Hwarn|]. split.
  - rewrite Hlog. unfold tester_calls.
    subst st2. cbn. by rewrite <- app_assoc.
  - intros ev Hev. apply Hfiles.
    unfold tester_calls in Hev.
    apply elem_of_cons in Hev as [->|Hev].
    + left. subst st2. cbn. rewrite lookup_insert_eq. by eexists.
    + right. apply list_elem_of_In, in_map. by apply list_elem_of_In.
Qed.

(** X15: a class that is not skipped and has test sources gets its
    directory, no warning, and these files in this order: the class
    tester, with the properties to be tested that are single or
    predicates, then one property tester for each of the others.  No
    property to be tested is left out or served twice, and every file
    named is there after the turn. *)
Theorem tested_class_gets_its_testers (fuel : nat)
    (lookup : gmap string ql.Class) (st : test_state) (c : ql.Class)
    (props : list ql.PropertyForTest) :
  _should_skip_qltest fuel c lookup = Val false →
  glob (tfiles st) (test_dir_of c) "*.swift" ≠ [] →
  _get_all_properties_to_be_tested qllib fuel c lookup = Val props →
  ∃ st' total partial,
    generate_test fuel lookup st c = (st', Val tt)
    ∧ made st' = made st ++ [test_dir_of c]
    ∧ warnings st' = warnings st
    ∧ trendered st'
      = trendered st
        ++ (RClassTester (ql.Class.name c) total,
            joinpath pathlib (test_dir_of c) (ql.Class.name c +:+ ".ql"))
           :: map (property_tester_call c) partial
    ∧ total ++ partial ≡ₚ props
    ∧ (∀ p, p ∈ total ↔ p ∈ props ∧ is_total p = true)
    ∧ (∀ p, p ∈ partial ↔
            p ∈ props ∧ ql.PropertyForTest.is_single p = false
            ∧ ql.PropertyForTest.is_predicate p = false)
    ∧ length (trendered st') = length (trendered st) + 1 + length partial
    ∧ is_Some (tfiles st' !! joinpath pathlib (test_dir_of c)
                               (ql.Class.name c +:+ ".ql"))
    ∧ ∀ p, p ∈ partial →
           is_Some (tfiles st' !! (property_tester_call c p).2).
Proof.
  intros Hskip Hglob Hprops.
  destruct (generate_test_tested fuel lookup st c props Hskip Hglob Hprops)
    as (st' & Hgen & Hmade & Hwarn & Hlog & Hfiles).
  exists st', (filter (fun p => is_total p = true) props),
    (filter (fun p => is_total p = false) props).
  split; [done|]. split; [done|]. split; [done|]. split; [done|].
  split; [apply filter_complement_perm|]. split; [|split; [|split; [|split]]].
  - intros p. rewrite list_elem_of_filter. tauto.
  - intros p. rewrite list_elem_of_filter. unfold is_total.
    rewrite orb_false_iff. tauto.
  - rewrite Hlog, length_app. unfold tester_calls.
    cbn. rewrite length_map. lia.
  - apply (Hfiles (RClassTester (ql.Class.name c)
                     (filter (fun p => is_total p = true) props), _)). left.
  - intros p Hp. apply Hfiles. right.
    apply list_elem_of_In, (in_map (property_tester_call c)).
    by apply list_elem_of_In.
Qed.

Lemma generate_test_inv (fuel : nat) (lookup : gmap string ql.Class)
    (st st' : test_state) (c : ql.Class) (u : unit) :
  generate_test fuel lookup st c = (st', Val u) →
  (_should_skip_qltest fuel c lookup = Val true ∧ st' = st)
  ∨ (_should_skip_qltest fuel c lookup = Val false
     ∧ made st' = made st ++ [test_dir_of c]
     ∧ ∃ evs, trendered st' = trendered st ++ evs
         ∧ (evs = [(RMissingTestInstructions,
                    joinpath pathlib (test_dir_of c)
                      missing_test_source_filename)]
            ∨ ∃ props,
                _get_all_properties_to_be_tested qllib fuel c lookup
                = Val props
                ∧ evs = tester_calls c props)).
Proof.
  intros H.
  destruct (_should_skip_qltest fuel c lookup) as [[]|e] eqn:Hskip.
  - left. unfold generate_test in H. rewrite Hskip in H.
    by injection H as <-.
  - right. split; [done|].
    destruct (decide (glob (tfiles st) (test_dir_of c) "*.swift" = []))
      as [Hnone|Hsome].
    + unfold generate_test in H. rewrite Hskip in H.
      cbn [mkdir tfiles] in H. rewrite bool_decide_false in H by naive_solver.
      cbn [negb] in H. injection H as <-. cbn. split; [done|].
      eexists. split; [done|]. by left.
    + destruct (_get_all_properties_to_be_tested qllib fuel c lookup)
        as [props|e] eqn:Hprops.
      * destruct (generate_test_tested fuel lookup st c props
                    Hskip Hsome Hprops) as (st2 & Hgen & Hmade & _ & Hlog & _).
        rewrite Hgen in H. injection H as <-. split; [done|].
        eexists. split; [done|]. right. by exists props.
      * unfold generate_test in H. rewrite Hskip in H.
        cbn [mkdir tfiles] in H. rewrite bool_decide_true in H by done.
        cbn [negb] in H. by rewrite Hprops in H.
  - unfold generate_test in H. by rewrite Hskip in H.
Qed.
(** X16: a run of the test loop that comes to its end has made one
    directory for every class that is not skipped, in the order of the
    list, and handed to the renderer, class after class in that
    order, either the placeholder for the missing sources alone or
    the testers of the class; nothing is handed over for a skipped
    class. *)
Theorem test_files_follow_kept_classes (fuel : nat)
    (lookup : gmap string ql.Class) (classes : list ql.Class)
    (st0 st : test_state) (u : unit) :
  generate_tests fuel lookup st0 classes = (st, Val u) →
  ∃ kept calls,
    filterM (fun c => let* skip := _should_skip_qltest fuel c lookup in
                      Val (negb skip)) classes = Val kept
    ∧ made st = made st0 ++ map test_dir_of kept
    ∧ trendered st = trendered st0 ++ concat calls
    ∧ Forall2
        (fun c evs =>
           evs = [(RMissingTestInstructions,
                   joinpath pathlib (test_dir_of c)
                     missing_test_source_filename)]
           ∨ ∃ props,
               _get_all_properties_to_be_tested qllib fuel c lookup
               = Val props
               ∧ evs = tester_calls c props)
        kept calls.
Proof.
  revert st0. induction classes as [|c cs IH]; intros st0 H; cbn in H.
  - injection H as <-. exists [], []. cbn. rewrite !app_nil_r.
    repeat split; try done.
  - destruct (generate_test fuel lookup st0 c) as [st1 [u1|e]] eqn:Hc;
      [|done].
    destruct (IH _ H) as (kept & calls & Hkept & Hmade & Hlog & Hall).
    apply generate_test_inv in Hc
      as [[Hskip ->]|(Hskip & Hmade1 & evs & Hlog1 & Hevs)].
    + exists kept, calls. cbn. rewrite Hskip. cbn. rewrite Hkept. by cbn.
    + exists (c :: kept), (evs :: calls). cbn. rewrite Hskip. cbn.
      rewrite Hkept. cbn. split; [done|].
      split; [by rewrite Hmade, Hmade1, <- app_assoc|].
      split; [by rewrite Hlog, Hlog1, <- app_assoc|].
      by constructor.
Qed.

Lemma generate_test_raises (fuel : nat) (lookup : gmap string ql.Class)
    (st st' : test_state) (c : ql.Class) (e : exn) :
  generate_test fuel lookup st c = (st', Raise e) →
  trendered st' = trendered st ∧ tfiles st' = tfiles st
  ∧ warnings st' = warnings st
  ∧ (_should_skip_qltest fuel c lookup = Raise e
     ∨ _should_skip_qltest fuel c lookup = Val false
       ∧ _get_all_properties_to_be_tested qllib fuel c lookup = Raise e).
Proof.
  unfold generate_test.
  destruct (_should_skip_qltest fuel c lookup) as [[]|e'] eqn:Hskip.
  - done.
  - cbn [mkdir tfiles]. destruct (negb _); [done|].
    destruct (_get_all_properties_to_be_tested qllib fuel c lookup)
      as [props|e'] eqn:Hprops.
    + by destruct (_partition props is_total).
    + intros [= <- <-]. cbn. repeat split; try done. by right.
  - intros [= <- <-]. repeat split; try done. by left.
Qed.

(** X17: an error stops the test loop at the class it comes from.
    The classes before it have had their turn, the failing turn hands
    nothing to the renderer and logs nothing, the classes after it
    are not reached; and the error is that of the test decision or
    that of the traversal of the properties. *)
Theorem failing_turn_writes_nothing (fuel : nat)
    (lookup : gmap string ql.Class) (classes : list ql.Class)
    (st0 st : test_state) (e : exn) :
  generate_tests fuel lookup st0 classes = (st, Raise e) →
  ∃ before c after st1,
    classes = before ++ c :: after
    ∧ generate_tests fuel lookup st0 before = (st1, Val tt)
    ∧ generate_test fuel lookup st1 c = (st, Raise e)
    ∧ trendered st = trendered st1
    ∧ tfiles st = tfiles st1
    ∧ warnings st = warnings st1
    ∧ (_should_skip_qltest fuel c lookup = Raise e
       ∨ _should_skip_qltest fuel c lookup = Val false
         ∧ _get_all_properties_to_be_tested qllib fuel c lookup = Raise e).
Proof.
  revert st0. induction classes as [|c cs IH]; intros st0 H; cbn in H;
    [done|].
  destruct (generate_test fuel lookup st0 c) as [st1 [[]|e1]] eqn:Hc.
  - destruct (IH _ H) as (before & c' & after & st2 & -> & Hrun & Hturn & Hrest).
    exists (c :: before), c', after, st2. split; [done|]. split; [|done].
    cbn. by rewrite Hc.
  - injection H as <- <-. exists [], c, cs, st0. split; [done|].
    split; [done|]. split; [done|]. by apply generate_test_raises in Hc.
Qed.
End TestFacts.

(** ** The further properties on the samples *)

(** [_partition] on a list of numbers, by parity. *)
Example partition_by_parity :
  _partition [1; 2; 3; 4; 5] Nat.even = ([2; 4], [1; 3; 5]).
Proof. reflexivity. Qed.

(** An empty base name raises, and so does an empty property type. *)
Example empty_type_name_raises :
  get_classes_used_by (samples.ql_class "Odd" ["Base"; ""] true [] false false)
  = Raise IndexError
  ∧ get_classes_used_by
      (samples.ql_class "Odd" ["Base"] true
         [Obj 51 (samples.ql_property "P" "" false)] false false)
    = Raise IndexError.
Proof. split; reflexivity. Qed.

Lemma property_binding_by_kind_witness :
  (get_ql_property samples.inflection samples.leaf_schema samples.items_prop
   = None
   ↔ schema.Property.is_single (deref samples.items_prop) = false
     ∧ schema.Property.is_repeated (deref samples.items_prop) = false
     ∧ schema.Property.is_optional (deref samples.items_prop) = false
     ∧ schema.Property.is_predicate (deref samples.items_prop) = false)
  ∧ ∀ qp,
      get_ql_property samples.inflection samples.leaf_schema samples.items_prop
      = Some qp →
      head (ql.Property.tableparams qp) = Some "this"
      ∧ count_occ string_dec (ql.Property.tableparams qp) "result"
        = (if schema.Property.is_single (deref samples.items_prop)
              || schema.Property.is_repeated (deref samples.items_prop)
              || schema.Property.is_optional (deref samples.items_prop)
           then 1 else 0)
      ∧ count_occ string_dec (ql.Property.tableparams qp) "index"
        = (if negb (schema.Property.is_single (deref samples.items_prop))
              && schema.Property.is_repeated (deref samples.items_prop)
           then 1 else 0)
      ∧ (is_Some (ql.Property.plural qp)
         ↔ schema.Property.is_single (deref samples.items_prop) = false
           ∧ schema.Property.is_repeated (deref samples.items_prop) = true).
Proof.
  apply (property_binding_by_kind samples.inflection samples.leaf_schema
           samples.items_prop).
  - right. left.
  - checked.
Defined.

Lemma import_has_no_separator_witness :
  all_chars (fun c => negb (Ascii.eqb c "/")) "codeql.swift.elements.expr.Call"
  = true
  ∧ ∃ rel stem,
      relative_to samples.pathlib runs.call_stub_file
        (joinpath samples.pathlib "swift" "ql/lib") = Val rel
      ∧ with_suffix samples.pathlib rel "" = Val stem
      ∧ String.length "codeql.swift.elements.expr.Call" = String.length stem
      ∧ (∀ n, String.get n "codeql.swift.elements.expr.Call"
              = option_map (fun c => if Ascii.eqb c "/" then "."%char else c)
                           (String.get n stem))
      ∧ (all_chars (fun c => negb (Ascii.eqb c "/")) stem = true →
         "codeql.swift.elements.expr.Call" = stem).
Proof.
  apply (import_has_no_separator samples.pathlib runs.call_stub_file "swift"
           "codeql.swift.elements.expr.Call").
  reflexivity.
Defined.

(** An underscore of the stem stays an underscore. *)
Example import_keeps_underscore :
  get_import samples.pathlib
    "swift/ql/lib/codeql/swift/elements/type/My_Type.qll" "swift"
  = Val "codeql.swift.elements.type.My_Type".
Proof. reflexivity. Qed.

Lemma written_stub_is_pristine_witness :
  _is_generated_stub runs.pristine_fs samples.leaf_stub_file = Val true.
Proof.
  apply (written_stub_is_pristine runs.pristine_fs samples.leaf_stub_file
           "// generated by codegen, remove this comment if you wish to edit this file"
           "codeql.swift.generated.Leaf" "Leaf" "LeafBase" " ").
  - reflexivity.
  - reflexivity.
  - reflexivity.
  - reflexivity.
  - discriminate.
  - reflexivity.
  - discriminate.
  - reflexivity.
  - by left.
Defined.

Lemma existing_outputs_members_witness :
  samples.leaf_stub_file ∈ ({[ samples.leaf_stub_file ]} : gset string)
  ↔ samples.leaf_stub_file
      ∈ rglob samples.pathlib runs.pristine_fs (ql_output samples.opts) "*.qll"
    ∨ (samples.leaf_stub_file
         ∈ rglob samples.pathlib runs.pristine_fs
             (ql_stub_output samples.opts) "*.qll"
       ∧ _is_generated_stub runs.pristine_fs samples.leaf_stub_file = Val true)
    ∨ samples.leaf_stub_file
        ∈ rglob samples.pathlib runs.pristine_fs
            (ql_test_output samples.opts) "*.ql"
    ∨ samples.leaf_stub_file
        ∈ rglob samples.pathlib runs.pristine_fs
            (ql_test_output samples.opts) "MISSING_SOURCE.txt".
Proof.
  apply (existing_outputs_members samples.pathlib samples.opts
           runs.pristine_fs {[ samples.leaf_stub_file ]}).
  vm_compute. reflexivity.
Defined.

Lemma modified_stub_aborts_run_witness :
  ∃ e', generate samples.pathlib samples.qllib samples.render_text
          samples.opts runs.modified_fs
          [samples.base; samples.item; samples.leaf; samples.mid]
        = ({| files := runs.modified_fs; rendered := [] |}, Raise e').
Proof.
  apply (modified_stub_aborts_run samples.pathlib samples.qllib
           samples.render_text samples.opts runs.modified_fs
           [samples.base; samples.item; samples.leaf; samples.mid]
           samples.leaf_stub_file
           (ModifiedStubMarkedAsGeneratedError samples.leaf_stub_file)).
  - checked.
  - reflexivity.
Defined.

Lemma non_pristine_stub_left_alone_witness :
  files (generate samples.pathlib samples.qllib samples.render_text
           samples.opts runs.user_fs
           [samples.base; samples.item; samples.leaf; samples.mid]).1
  !! samples.leaf_stub_file = Some runs.user_stub
  ∧ ∀ d, (d, samples.leaf_stub_file)
         ∉ rendered
             (generate samples.pathlib samples.qllib samples.render_text
                samples.opts runs.user_fs
                [samples.base; samples.item; samples.leaf; samples.mid]).1.
Proof.
  apply (non_pristine_stub_left_alone samples.pathlib samples.qllib
           samples.render_text samples.opts runs.user_fs
           [samples.base; samples.item; samples.leaf; samples.mid]
           samples.leaf_stub_file runs.user_stub).
  - reflexivity.
  - vm_compute. discriminate.
  - intros c rel Hc Hrel.
    repeat (apply elem_of_cons in Hc as [->|Hc]);
      [..|by apply elem_of_nil in Hc];
      vm_compute in Hrel; injection Hrel as <-; vm_compute; discriminate.
Defined.

(** The run on the user's stub: the definitions and the other stubs
    are written, the run comes to its end. *)
Example user_stub_run :
  map snd (rendered
    (generate samples.pathlib samples.qllib samples.render_text samples.opts
       runs.user_fs
       [samples.base; samples.item; samples.leaf; samples.mid]).1)
  = ["swift/ql/lib/codeql/swift/generated/Base.qll";
     "swift/ql/lib/codeql/swift/elements/Base.qll";
     "swift/ql/lib/codeql/swift/generated/Item.qll";
     "swift/ql/lib/codeql/swift/elements/Item.qll";
     "swift/ql/lib/codeql/swift/generated/Leaf.qll";
     "swift/ql/lib/codeql/swift/generated/Mid.qll";
     "swift/ql/lib/codeql/swift/elements/Mid.qll"]
  ∧ (generate samples.pathlib samples.qllib samples.render_text samples.opts
       runs.user_fs
       [samples.base; samples.item; samples.leaf; samples.mid]).2
    = Val ∅.
Proof. split; vm_compute; reflexivity. Qed.

Lemma import_table_of_classes_witness :
  (∀ k, is_Some
          ((list_to_map [("Base", "codeql.swift.elements.Base");
                         ("Leaf", "codeql.swift.elements.Leaf");
                         ("Mid", "codeql.swift.elements.Mid")]
            : gmap string string) !! k)
        ↔ ∃ c, c ∈ [samples.base; samples.leaf; samples.mid]
               ∧ ql.Class.name c = k)
  ∧ (NoDup (map ql.Class.name [samples.base; samples.leaf; samples.mid]) →
     ∀ c, c ∈ [samples.base; samples.leaf; samples.mid] →
       ∃ i, get_import samples.pathlib
              (joinpath samples.pathlib (ql_stub_output samples.opts)
                 (path samples.qllib c))
              (swift_dir samples.opts) = Val i
            ∧ (list_to_map [("Base", "codeql.swift.elements.Base");
                            ("Leaf", "codeql.swift.elements.Leaf");
                            ("Mid", "codeql.swift.elements.Mid")]
               : gmap string string) !! ql.Class.name c = Some i).
Proof.
  apply (import_table_of_classes samples.pathlib samples.qllib samples.opts
           [samples.base; samples.leaf; samples.mid]).
  vm_compute. reflexivity.
Defined.

Lemma definitions_rendered_in_order_witness :
  ∃ imports,
    build_imports samples.pathlib samples.qllib samples.opts ∅
      [samples.base; samples.item; samples.leaf; samples.mid] = Val imports
    ∧ Forall2
        (fun c ev =>
           ∃ rel used,
             with_suffix samples.pathlib (path samples.qllib c) ".qll"
             = Val rel
             ∧ ev.2 = joinpath samples.pathlib (ql_output samples.opts) rel
             ∧ get_classes_used_by c = Val used
             ∧ Forall2 (fun t i => imports !! t = Some i)
                       used (ql.Class.imports ev.1)
             ∧ ev.1 = set_imports c (ql.Class.imports ev.1))
        [samples.base; samples.item; samples.leaf; samples.mid]
        (class_events
           (rendered
              (generate samples.pathlib samples.qllib samples.render_text
                 samples.opts runs.user_fs
                 [samples.base; samples.item; samples.leaf; samples.mid]).1)).
Proof.
  apply (definitions_rendered_in_order samples.pathlib samples.qllib
           samples.render_text samples.opts runs.user_fs
           [samples.base; samples.item; samples.leaf; samples.mid]
           _ ∅).
  vm_compute. reflexivity.
Defined.

(** The definition of [Leaf] is rendered with the imports of [Item]
    and [Mid], in that order. *)
Example leaf_imports_resolved :
  map (fun ev => (ql.Class.name ev.1, ql.Class.imports ev.1))
    (class_events
       (rendered
          (generate samples.pathlib samples.qllib samples.render_text
             samples.opts runs.user_fs
             [samples.base; samples.item; samples.leaf; samples.mid]).1))
  = [("Base", []); ("Item", []);
     ("Leaf", ["codeql.swift.elements.Item"; "codeql.swift.elements.Mid"]);
     ("Mid", ["codeql.swift.elements.Base"])].
Proof. vm_compute. reflexivity. Qed.

Lemma bases_examined_in_order_witness :
  (samples.plain !! "Ghost" = None →
     _is_under_qltest_collapsed_hierachy 2 runs.orphan samples.plain
     = Raise (KeyError "Ghost")
     ∧ (ql.Class.qltest_skip runs.orphan = false →
        ql.Class.final runs.orphan
        || ql.Class.qltest_collapse_hierarchy runs.orphan = true →
        _should_skip_qltest 2 runs.orphan samples.plain
        = Raise (KeyError "Ghost")))
  ∧ (∀ cb, samples.plain !! "Ghost" = Some cb →
       _is_in_qltest_collapsed_hierachy 1 cb samples.plain = Val true →
       _is_under_qltest_collapsed_hierachy 2 runs.orphan samples.plain
       = Val true).
Proof.
  apply (bases_examined_in_order samples.plain 1 runs.orphan
           ["Base"] ["Mid"] "Ghost").
  - reflexivity.
  - reflexivity.
  - constructor; [|constructor]. exists samples.base. split; reflexivity.
Defined.

(** Below a collapsed [Base], the answer for [Orphan] is given at its
    first base: [Ghost] is not looked up. *)
Example ghost_not_looked_up :
  _is_under_qltest_collapsed_hierachy 2 runs.orphan samples.collapsed
  = Val true
  ∧ _should_skip_qltest 2 runs.orphan samples.plain
    = Raise (KeyError "Ghost").
Proof. split; reflexivity. Qed.

Lemma collapsed_hierarchy_tested_at_root_witness :
  _should_skip_qltest 3 samples.base_c samples.collapsed = Val false
  ∧ ∀ m d, samples.collapsed !! m = Some d → samples.depth m < 3 →
      DerivesUnbroken samples.collapsed d samples.base_c →
      _should_skip_qltest 3 d samples.collapsed = Val true.
Proof.
  apply (collapsed_hierarchy_tested_at_root samples.collapsed samples.depth
           collapsed_closed_acyclic 3 "Base" samples.base_c).
  - reflexivity.
  - vm_compute. lia.
  - reflexivity.
  - reflexivity.
  - intros H. inversion H as [c b cb _ Hb|c b cb _ Hb]; by apply elem_of_nil in Hb.
Defined.

Lemma first_base_properties_first_witness :
  (samples.diamond !! "Left" = None →
     _get_all_properties_to_be_tested samples.qllib 3 samples.bottom
       samples.diamond
     = Raise (KeyError "Left"))
  ∧ (∀ cb props, samples.diamond !! "Left" = Some cb →
       _get_all_properties_to_be_tested samples.qllib 3 samples.bottom
         samples.diamond = Val props →
       ∃ inherited,
         _get_all_properties_to_be_tested samples.qllib 2 cb samples.diamond
         = Val inherited
         ∧ inherited `prefix_of` props).
Proof.
  apply (first_base_properties_first samples.qllib samples.diamond 2
           samples.bottom "Left" ["Right"]).
  reflexivity.
Defined.

Lemma tested_class_gets_its_testers_witness :
  ∃ st' total partial,
    generate_test samples.pathlib runs.glob samples.qllib runs.test_text
      samples.opts 3 runs.library runs.before_tests runs.shelf
    = (st', Val tt)
    ∧ made st'
      = made runs.before_tests
        ++ [test_dir_of samples.pathlib samples.qllib samples.opts runs.shelf]
    ∧ warnings st' = warnings runs.before_tests
    ∧ trendered st'
      = trendered runs.before_tests
        ++ (RClassTester (ql.Class.name runs.shelf) total,
            joinpath samples.pathlib
              (test_dir_of samples.pathlib samples.qllib samples.opts
                 runs.shelf)
              (ql.Class.name runs.shelf +:+ ".ql"))
           :: map (fun p =>
                     (RPropertyTester (ql.Class.name runs.shelf) p,
                      joinpath samples.pathlib
                        (test_dir_of samples.pathlib samples.qllib
                           samples.opts runs.shelf)
                        (ql.Class.name runs.shelf +:+ "_"
                         +:+ ql.PropertyForTest.getter p +:+ ".ql")))
                  partial
    ∧ total ++ partial
      ≡ₚ map (fun p => property_for_test samples.qllib (deref p))
           [runs.label; runs.books]
    ∧ (∀ p, p ∈ total ↔
            p ∈ map (fun p => property_for_test samples.qllib (deref p))
                  [runs.label; runs.books]
            ∧ is_total p = true)
    ∧ (∀ p, p ∈ partial ↔
            p ∈ map (fun p => property_for_test samples.qllib (deref p))
                  [runs.label; runs.books]
            ∧ ql.PropertyForTest.is_single p = false
            ∧ ql.PropertyForTest.is_predicate p = false)
    ∧ length (trendered st')
      = length (trendered runs.before_tests) + 1 + length partial
    ∧ is_Some (tfiles st'
               !! joinpath samples.pathlib
                    (test_dir_of samples.pathlib samples.qllib samples.opts
                       runs.shelf)
                    (ql.Class.name runs.shelf +:+ ".ql"))
    ∧ ∀ p, p ∈ partial →
           is_Some (tfiles st'
                    !! (RPropertyTester (ql.Class.name runs.shelf) p,
                        joinpath samples.pathlib
                          (test_dir_of samples.pathlib samples.qllib
                             samples.opts runs.shelf)
                          (ql.Class.name runs.shelf +:+ "_"
                           +:+ ql.PropertyForTest.getter p +:+ ".ql")).2).
Proof.
  apply (tested_class_gets_its_testers samples.pathlib runs.glob samples.qllib
           runs.test_text samples.opts 3 runs.library runs.before_tests
           runs.shelf
           (map (fun p => property_for_test samples.qllib (deref p))
                [runs.label; runs.books])).
  - reflexivity.
  - vm_compute. discriminate.
  - reflexivity.
Defined.

Lemma test_files_follow_kept_classes_witness :
  ∃ kept calls,
    filterM (fun c => let* skip := _should_skip_qltest 3 c runs.library in
                      Val (negb skip))
      [samples.base; samples.leaf; samples.mid; runs.shelf] = Val kept
    ∧ made (generate_tests samples.pathlib runs.glob samples.qllib
              runs.test_text samples.opts 3 runs.library runs.before_tests
              [samples.base; samples.leaf; samples.mid; runs.shelf]).1
      = made runs.before_tests
        ++ map (test_dir_of samples.pathlib samples.qllib samples.opts) kept
    ∧ trendered (generate_tests samples.pathlib runs.glob samples.qllib
                   runs.test_text samples.opts 3 runs.library
                   runs.before_tests
                   [samples.base; samples.leaf; samples.mid; runs.shelf]).1
      = trendered runs.before_tests ++ concat calls
    ∧ Forall2
        (fun c evs =>
           evs = [(RMissingTestInstructions,
                   joinpath samples.pathlib
                     (test_dir_of samples.pathlib samples.qllib samples.opts c)
                     missing_test_source_filename)]
           ∨ ∃ props,
               _get_all_properties_to_be_tested samples.qllib 3 c runs.library
               = Val props
               ∧ evs = tester_calls samples.pathlib samples.qllib
                         samples.opts c props)
        kept calls.
Proof.
  apply (test_files_follow_kept_classes samples.pathlib runs.glob
           samples.qllib runs.test_text samples.opts 3 runs.library
           [samples.base; samples.leaf; samples.mid; runs.shelf]
           runs.before_tests _ tt).
  vm_compute. reflexivity.
Defined.

(** The run of the test loop on the library: [Base] and [Mid] are
    skipped, [Leaf] has no test source, [Shelf] gets its testers. *)
Example library_test_files :
  map snd (trendered
    (generate_tests samples.pathlib runs.glob samples.qllib runs.test_text
       samples.opts 3 runs.library runs.before_tests
       [samples.base; samples.leaf; samples.mid; runs.shelf]).1)
  = ["swift/ql/test/extractor-tests/generated/Leaf/MISSING_SOURCE.txt";
     "swift/ql/test/extractor-tests/generated/Shelf/Shelf.ql";
     "swift/ql/test/extractor-tests/generated/Shelf/Shelf_getBook.ql"]
  ∧ warnings
      (generate_tests samples.pathlib runs.glob samples.qllib runs.test_text
         samples.opts 3 runs.library runs.before_tests
         [samples.base; samples.leaf; samples.mid; runs.shelf]).1
    = ["no test source in Leaf"].
Proof. split; vm_compute; reflexivity. Qed.

Lemma failing_turn_writes_nothing_witness :
  ∃ before c after st1,
    [runs.shelf; runs.orphan; samples.leaf] = before ++ c :: after
    ∧ generate_tests samples.pathlib runs.glob samples.qllib runs.test_text
        samples.opts 3 runs.library runs.before_tests before
      = (st1, Val tt)
    ∧ generate_test samples.pathlib runs.glob samples.qllib runs.test_text
        samples.opts 3 runs.library st1 c
      = ((generate_tests samples.pathlib runs.glob samples.qllib
            runs.test_text samples.opts 3 runs.library runs.before_tests
            [runs.shelf; runs.orphan; samples.leaf]).1,
         Raise (KeyError "Ghost"))
    ∧ trendered
        (generate_tests samples.pathlib runs.glob samples.qllib
           runs.test_text samples.opts 3 runs.library runs.before_tests
           [runs.shelf; runs.orphan; samples.leaf]).1
      = trendered st1
    ∧ tfiles
        (generate_tests samples.pathlib runs.glob samples.qllib
           runs.test_text samples.opts 3 runs.library runs.before_tests
           [runs.shelf; runs.orphan; samples.leaf]).1
      = tfiles st1
    ∧ warnings
        (generate_tests samples.pathlib runs.glob samples.qllib
           runs.test_text samples.opts 3 runs.library runs.before_tests
           [runs.shelf; runs.orphan; samples.leaf]).1
      = warnings st1
    ∧ (_should_skip_qltest 3 c runs.library = Raise (KeyError "Ghost")
       ∨ _should_skip_qltest 3 c runs.library = Val false
         ∧ _get_all_properties_to_be_tested samples.qllib 3 c runs.library
           = Raise (KeyError "Ghost")).
Proof.
  apply (failing_turn_writes_nothing samples.pathlib runs.glob samples.qllib
           runs.test_text samples.opts 3 runs.library
           [runs.shelf; runs.orphan; samples.leaf] runs.before_tests).
  vm_compute. reflexivity.
Defined.
